(** * ModelParametersUnified: parameter flattening, pivot conversion,
      Gaussian kernel activations and their cache

    A shallow embedding of [ModelParametersUnified.cpp] (DmpBbo, module
    functionapproximators) and the properties of it that the design
    document states.

    Conventions of the embedding.
    - [double] is an abstract scalar type [D] with the operations the
      source applies to it ([Arith], [Libm], [Atan2]).  Statements that
      need no law of arithmetic hold for every interpretation, IEEE
      binary64 included; the others name the laws they use
      ([ExactArith], [ExactEq], [SquareLaw], [ZeroLaws]).  Two interpretations are given:
      the real numbers, and binary64 through primitive floats.
    - An Eigen matrix is its row count and the list of its columns
      (Eigen's default storage is column major), so that the shapes
      0 x n and n x 0 stay distinct.  A [VectorXd] is a list.
    - Sizes and indices are [nat]: the source's [int] is assumed not to
      wrap, i.e. every size stays below 2^31.
    - [assert] follows the NDEBUG build, where it expands to nothing
      (the declarations that [checkDimensions] makes for its assertions
      when NDEBUG is not set name [centers], which is not in scope
      there); each asserted condition is kept as a boolean definition
      of its own so that it can be stated and checked.
    - Mutating member functions run in the monad [M]: the state of the
      object, the trace of the observable events ([cerr] output and
      calls of [clearCache]) and how the call ended. *)

From Stdlib Require Import Reals Lra.
From Stdlib Require Import Floats.
From stdpp Require Import base list gmap strings.

Local Open Scope nat_scope.

(** ** Scalars *)

(** The arithmetic the source performs on [double]. [deqb] is [==],
    [dgtb] is [>], and the constants are the literals of the source. *)
Class Arith (D : Type) := {
  d0 : D;                      (* 0 *)
  d1 : D;                      (* 1.0 *)
  dneghalf : D;                (* -0.5 *)
  d100000 : D;                 (* 100000.0 *)
  dadd : D -> D -> D;
  dsub : D -> D -> D;
  dmul : D -> D -> D;
  ddiv : D -> D -> D;
  deqb : D -> D -> bool;
  dgtb : D -> D -> bool
}.

(** [exp] and [pow(., 2)] of the C library, used by the kernel. *)
Class Libm (D : Type) := {
  dexp : D -> D;
  dpow2 : D -> D
}.

(** [atan2] of the C library, used by the angle representation. *)
Class Atan2 (D : Type) := {
  datan2 : D -> D -> D
}.

Declare Scope dbl_scope.
Delimit Scope dbl_scope with D.
Infix "+" := dadd : dbl_scope.
Infix "-" := dsub : dbl_scope.
Infix "*" := dmul : dbl_scope.
Infix "/" := ddiv : dbl_scope.

(** Laws of exact arithmetic, the ones that the pivot conversion relies
    on. They hold over the reals and fail over binary64, which rounds. *)
Class ExactArith (D : Type) `{Arith D} := {
  dadd_sub_cancel : forall x y : D, ((x + y) - y)%D = x;
  dsub_add_cancel : forall x y : D, ((x - y) + y)%D = x;
  dadd_assoc : forall x y z : D, (x + (y + z))%D = ((x + y) + z)%D;
  dadd_sub_assoc : forall x y z : D, (x + (y - z))%D = ((x + y) - z)%D
}.

(** [==] decides equality. It does over the reals; over binary64 it
    does not (NaN differs from itself, and the two zeros are equal). *)
Class ExactEq (D : Type) `{Arith D} :=
  deqb_eq : forall x y : D, deqb x y = true <-> x = y.

(** [pow(x, 2)] squares [x]. *)
Class SquareLaw (D : Type) `{Arith D, Libm D} :=
  dpow2_square : forall x : D, dpow2 x = (x * x)%D.

(** ** Eigen vectors and matrices *)

(** [v.segment(offset, size)], read. *)
Definition segment {A} (offset size : nat) (v : list A) : list A :=
  take size (drop offset v).

(** [v.segment(offset, size) = w], where [size] is the length of [w]. *)
Definition set_segment {A} (offset : nat) (w v : list A) : list A :=
  take offset v ++ w ++ drop (offset + length w) v.

(** [v.segment(offset, size).fill(x)] *)
Definition fill_segment {A} (offset size : nat) (x : A) (v : list A) : list A :=
  set_segment offset (replicate size x) v.

(** A [VectorXd] is the list of its coefficients. *)
Abbreviation VectorXd D := (list D).

Section Eigen.
Context {D : Type} `{Arith D}.

Record MatrixXd := mkMatrix {
  rows : nat;
  columns : list (list D)
}.

Definition cols (A : MatrixXd) : nat := length (columns A).

(** Representation invariant: every column has [rows] entries. *)
Definition wf_matrix (A : MatrixXd) : Prop :=
  Forall (fun c => length c = rows A) (columns A).

(** [MatrixXd()], and the result of [resize(0,0)]. *)
Definition empty_matrix : MatrixXd := mkMatrix 0 [].

(** [A.col(j)] *)
Definition col (j : nat) (A : MatrixXd) : list D := nth j (columns A) [].

(** [A(i,j)] *)
Definition coeff (A : MatrixXd) (i j : nat) : D := nth i (col j A) d0.

(** [A.row(i)] *)
Definition row (i : nat) (A : MatrixXd) : list D :=
  (fun c => nth i c d0) <$> columns A.

(** [A.col(j) = v] *)
Definition set_col (j : nat) (v : list D) (A : MatrixXd) : MatrixXd :=
  mkMatrix (rows A) (<[j := v]> (columns A)).

(** [.sum()]: Eigen's reduction starts from the first coefficient and
    returns 0 on an empty expression. *)
Definition sum (l : list D) : D :=
  match l with
  | [] => d0
  | x :: t => fold_left dadd t x
  end.

(** [.maxCoeff()]: the visitor keeps the first coefficient and
    replaces it by each later one that compares greater. Eigen
    asserts a non-empty argument; the source calls it only then. *)
Definition maxCoeff (l : list D) : D :=
  match l with
  | [] => d0
  | x :: t => fold_left (fun res v => if dgtb v res then v else res) t x
  end.

(** [u * v.transpose()] for two row vectors: the inner product. *)
Definition dot (u v : list D) : D := sum (zip_with dmul u v).

(** [(a.array() == b.array()).all()] *)
Definition array_eq_all (a b : list D) : bool :=
  forallb (fun p => deqb p.1 p.2) (zip a b).

(** Coefficient-wise binary operation on two matrices of one shape. *)
Definition cwise2 (f : D -> D -> D) (A B : MatrixXd) : MatrixXd :=
  mkMatrix (rows A) (zip_with (zip_with f) (columns A) (columns B)).

(** [v.transpose().replicate(n, 1)]: [n] copies of the row [v]. *)
Definition replicate_row (n : nat) (v : list D) : MatrixXd :=
  mkMatrix n ((fun x => replicate n x) <$> v).

(** [A * B.transpose()], entry [(s, b)] being the inner product of
    row [s] of [A] and row [b] of [B]. *)
Definition mul_transpose (A B : MatrixXd) : MatrixXd :=
  mkMatrix (rows A)
    ((fun b => (fun s => dot (row s A) (row b B)) <$> seq 0 (rows A))
       <$> seq 0 (rows B)).

(** [v.replicate(1, n)]: [n] copies of the column [v]. *)
Definition replicate_col (v : list D) (n : nat) : MatrixXd :=
  mkMatrix (length v) (replicate n v).

(** [A.resize(r, c); A.fill(x)] *)
Definition filled (r c : nat) (x : D) : MatrixXd :=
  mkMatrix r (replicate c (replicate r x)).

(** [A.rowwise().sum()], an [n x 1] matrix read as a vector. *)
Definition rowwise_sum (A : MatrixXd) : list D :=
  (fun s => sum (row s A)) <$> seq 0 (rows A).

(** [(A.array() == B.array()).all()] on two matrices of one shape. *)
Definition matrix_eq_all (A B : MatrixXd) : bool :=
  forallb (fun p => array_eq_all p.1 p.2) (zip (columns A) (columns B)).

End Eigen.

Arguments MatrixXd D : clear implicits.

(** ** The state of a [ModelParametersUnified] and the monad of its
       member functions *)

(** What a member function does that its caller or the console can see. *)
Inductive event :=
| Cerr (msg : string)     (* a line written to [std::cerr] *)
| ClearCache.             (* a call of [clearCache()] *)

(** The error kinds that the design document names. No function of the
    source raises any of them: they appear here so that statements about
    error results can be written down. *)
Inductive error := SizeMismatch | UnsupportedOperation.

(** How a call ends. *)
Inductive outcome (A : Type) :=
| Returned (a : A)
| Raised (e : error).
Arguments Returned {A} a.
Arguments Raised {A} e.

Section Model.
Context {D : Type} `{Arith D, Libm D, Atan2 D}.

Record ModelParametersUnified := mkMPU {
  centers_ : MatrixXd D;                   (* n_basis x n_dims *)
  widths_ : MatrixXd D;                    (* n_basis x n_dims *)
  slopes_ : MatrixXd D;                    (* n_basis x n_dims *)
  offsets_ : VectorXd D;                   (* n_basis *)
  priors_ : VectorXd D;                    (* n_basis *)
  normalized_basis_functions_ : bool;
  lines_pivot_at_max_activation_ : bool;
  slopes_as_angles_ : bool;
  all_values_vector_size_ : nat;
  caching_ : bool;
  inputs_cached_ : MatrixXd D;             (* mutable *)
  kernel_activations_cached_ : MatrixXd D  (* mutable *)
}.

Abbreviation MPU := ModelParametersUnified.

(** Assignments to single members. *)
Definition set_centers (x : MatrixXd D) (m : MPU) : MPU :=
  mkMPU x (widths_ m) (slopes_ m) (offsets_ m) (priors_ m)
    (normalized_basis_functions_ m) (lines_pivot_at_max_activation_ m)
    (slopes_as_angles_ m) (all_values_vector_size_ m) (caching_ m)
    (inputs_cached_ m) (kernel_activations_cached_ m).
Definition set_widths (x : MatrixXd D) (m : MPU) : MPU :=
  mkMPU (centers_ m) x (slopes_ m) (offsets_ m) (priors_ m)
    (normalized_basis_functions_ m) (lines_pivot_at_max_activation_ m)
    (slopes_as_angles_ m) (all_values_vector_size_ m) (caching_ m)
    (inputs_cached_ m) (kernel_activations_cached_ m).
Definition set_slopes (x : MatrixXd D) (m : MPU) : MPU :=
  mkMPU (centers_ m) (widths_ m) x (offsets_ m) (priors_ m)
    (normalized_basis_functions_ m) (lines_pivot_at_max_activation_ m)
    (slopes_as_angles_ m) (all_values_vector_size_ m) (caching_ m)
    (inputs_cached_ m) (kernel_activations_cached_ m).
Definition set_offsets (x : VectorXd D) (m : MPU) : MPU :=
  mkMPU (centers_ m) (widths_ m) (slopes_ m) x (priors_ m)
    (normalized_basis_functions_ m) (lines_pivot_at_max_activation_ m)
    (slopes_as_angles_ m) (all_values_vector_size_ m) (caching_ m)
    (inputs_cached_ m) (kernel_activations_cached_ m).
Definition set_pivot_flag (x : bool) (m : MPU) : MPU :=
  mkMPU (centers_ m) (widths_ m) (slopes_ m) (offsets_ m) (priors_ m)
    (normalized_basis_functions_ m) x
    (slopes_as_angles_ m) (all_values_vector_size_ m) (caching_ m)
    (inputs_cached_ m) (kernel_activations_cached_ m).
Definition set_angles_flag (x : bool) (m : MPU) : MPU :=
  mkMPU (centers_ m) (widths_ m) (slopes_ m) (offsets_ m) (priors_ m)
    (normalized_basis_functions_ m) (lines_pivot_at_max_activation_ m)
    x (all_values_vector_size_ m) (caching_ m)
    (inputs_cached_ m) (kernel_activations_cached_ m).
Definition set_all_values_vector_size (x : nat) (m : MPU) : MPU :=
  mkMPU (centers_ m) (widths_ m) (slopes_ m) (offsets_ m) (priors_ m)
    (normalized_basis_functions_ m) (lines_pivot_at_max_activation_ m)
    (slopes_as_angles_ m) x (caching_ m)
    (inputs_cached_ m) (kernel_activations_cached_ m).
Definition set_cache (inputs activations : MatrixXd D) (m : MPU) : MPU :=
  mkMPU (centers_ m) (widths_ m) (slopes_ m) (offsets_ m) (priors_ m)
    (normalized_basis_functions_ m) (lines_pivot_at_max_activation_ m)
    (slopes_as_angles_ m) (all_values_vector_size_ m) (caching_ m)
    inputs activations.

(** State, trace and outcome. *)
Definition M (A : Type) : Type := MPU -> outcome A * MPU * list event.

Global Instance M_ret : MRet M := fun A a m => (Returned a, m, []).

Global Instance M_bind : MBind M := fun A B k c m =>
  match c m with
  | (Returned a, m1, t1) =>
      match k a m1 with (r, m2, t2) => (r, m2, t1 ++ t2) end
  | (Raised e, m1, t1) => (Raised e, m1, t1)
  end.

Definition get : M MPU := fun m => (Returned m, m, []).
Definition modify (f : MPU -> MPU) : M unit := fun m => (Returned tt, f m, []).
Definition emit (e : event) : M unit := fun m => (Returned tt, m, [e]).

(** [for (int i = 0; i < n; i++) a = body(i, a);] with the loop-carried
    local variables in [a]. *)
Fixpoint for_each {A} (l : list nat) (body : nat -> A -> M A) (a : A) : M A :=
  match l with
  | [] => mret a
  | i :: l' => body i a ≫= for_each l' body
  end.
Definition for_loop {A} (n : nat) (body : nat -> A -> M A) (a : A) : M A :=
  for_each (seq 0 n) body a.

(** The three components of a run. *)
Definition result_of {A} (r : outcome A * MPU * list event) : outcome A := r.1.1.
Definition state_of {A} (r : outcome A * MPU * list event) : MPU := r.1.2.
Definition trace_of {A} (r : outcome A * MPU * list event) : list event := r.2.

End Model.

Arguments ModelParametersUnified D : clear implicits.
Arguments M D A : clear implicits.

(** ** The member functions of [ModelParametersUnified] *)

Section Members.
Context {D : Type} `{Arith D, Libm D, Atan2 D}.

Abbreviation MPU := (ModelParametersUnified D).

(** [VectorXd::Ones(rows, cols)]. The result is a column vector, so it
    has [rows] coefficients whatever [cols] is (Eigen asserts
    [cols == 1]). *)
Definition Ones (r c : nat) : VectorXd D := replicate r d1.

(** [MatrixXd::Zero(rows, cols)] *)
Definition Zero (r c : nat) : MatrixXd D := filled r c d0.

(** Modelled from the spec: [getParameterVectorAllSize] is defined in
    ModelParametersUnified.hpp, which is not among the sources. The
    design document calls its value [allValuesSize], the sum of the
    groups' element counts kept by the size bookkeeping, which is the
    member [all_values_vector_size_] that [checkDimensions] sets. *)
Definition getParameterVectorAllSize (m : MPU) : nat :=
  all_values_vector_size_ m.

(** Modelled from the spec: [clearCache] is defined in
    ModelParametersUnified.hpp, which is not among the sources. The
    design document calls it [invalidate()]: the memo of the last
    (inputs, activations) pair is dropped. A dropped memo is the state
    of a freshly constructed object, whose two cache matrices are
    default-constructed, i.e. 0 x 0. *)
Definition clearCache : M D unit :=
  modify (set_cache empty_matrix empty_matrix);;
  emit ClearCache.

(** The eight assertions of [checkDimensions]. The two on the column
    count of [offsets_] and [priors_] hold by their type. *)
Definition checkDimensions_assert (m : MPU) : bool :=
  let n_basis_functions := rows (centers_ m) in
  let n_dims := cols (centers_ m) in
  (n_basis_functions =? rows (widths_ m)) &&
  (n_dims =? cols (widths_ m)) &&
  (n_basis_functions =? rows (slopes_ m)) &&
  (n_dims =? cols (slopes_ m)) &&
  (n_basis_functions =? length (offsets_ m)) &&
  (1 =? 1) &&
  (n_basis_functions =? length (priors_ m)) &&
  (1 =? 1).

Definition checkDimensions : M D unit :=
  modify (set_all_values_vector_size 0);;
  modify (fun m => set_all_values_vector_size
    (all_values_vector_size_ m + rows (centers_ m) * cols (centers_ m)) m);;
  modify (fun m => set_all_values_vector_size
    (all_values_vector_size_ m + rows (widths_ m) * cols (widths_ m)) m);;
  modify (fun m => set_all_values_vector_size
    (all_values_vector_size_ m + length (offsets_ m) * 1) m);;
  modify (fun m => set_all_values_vector_size
    (all_values_vector_size_ m + rows (slopes_ m) * cols (slopes_ m)) m);;
  modify (fun m => set_all_values_vector_size
    (all_values_vector_size_ m + length (priors_ m) * 1) m).

(** The constructors. No constructor initialises [caching_], and
    [all_values_vector_size_] is set by [checkDimensions]; [caching0]
    stands for whatever the member [caching_] holds on entry. The two
    cache matrices are default-constructed. *)
Definition construct (centers widths slopes : MatrixXd D)
    (offsets priors : VectorXd D)
    (normalized_basis_functions lines_pivot_at_max_activation : bool)
    (caching0 : bool) : MPU :=
  state_of (checkDimensions
    (mkMPU centers widths slopes offsets priors
       normalized_basis_functions lines_pivot_at_max_activation false
       0 caching0 empty_matrix empty_matrix)).

(** (centers, widths, weights, ...) *)
Definition ModelParametersUnified_weights (centers widths : MatrixXd D)
    (weights : VectorXd D)
    (normalized_basis_functions lines_pivot_at_max_activation : bool)
    (caching0 : bool) : MPU :=
  construct centers widths (Zero (rows centers) (cols centers)) weights
    (Ones (rows centers) (cols centers))
    normalized_basis_functions lines_pivot_at_max_activation caching0.

(** (centers, widths, slopes, offsets, ...) *)
Definition ModelParametersUnified_lines (centers widths slopes : MatrixXd D)
    (offsets : VectorXd D)
    (normalized_basis_functions lines_pivot_at_max_activation : bool)
    (caching0 : bool) : MPU :=
  construct centers widths slopes offsets
    (Ones (rows centers) (cols centers))
    normalized_basis_functions lines_pivot_at_max_activation caching0.

(** (centers, widths, slopes, offsets, priors, ...) *)
Definition ModelParametersUnified_priors (centers widths slopes : MatrixXd D)
    (offsets priors : VectorXd D)
    (normalized_basis_functions lines_pivot_at_max_activation : bool)
    (caching0 : bool) : MPU :=
  construct centers widths slopes offsets priors
    normalized_basis_functions lines_pivot_at_max_activation caching0.

Definition clone (caching0 : bool) (m : MPU) : MPU :=
  ModelParametersUnified_lines (centers_ m) (widths_ m) (slopes_ m)
    (offsets_ m) (normalized_basis_functions_ m)
    (lines_pivot_at_max_activation_ m) caching0.

(** The vector [ac] of both [set_lines_pivot_at_max_activation] and
    [getLines]: [ac[i] = slopes_.row(i) * centers_.row(i).transpose()]
    for [i < centers_.rows()]. *)
Definition slopes_times_centers (m : MPU) : VectorXd D :=
  let n_lines := rows (centers_ m) in
  (fun i_line => dot (row i_line (slopes_ m)) (row i_line (centers_ m)))
    <$> seq 0 n_lines.

Definition set_lines_pivot_at_max_activation
    (lines_pivot_at_max_activation : bool) : M D unit :=
  m ← get;
  if Bool.eqb (lines_pivot_at_max_activation_ m) lines_pivot_at_max_activation
  then mret tt
  else
    let ac := slopes_times_centers m in
    (if lines_pivot_at_max_activation
     then modify (fun m => set_offsets (zip_with dadd (offsets_ m) ac) m)
     else modify (fun m => set_offsets (zip_with dsub (offsets_ m) ac) m));;
    modify (set_pivot_flag lines_pivot_at_max_activation).

(** The line written to [cerr] starts with [__FILE__:__LINE__], which
    the event leaves out. *)
Definition set_slopes_as_angles (slopes_as_angles : bool) : M D unit :=
  modify (set_angles_flag slopes_as_angles);;
  emit (Cerr ":Not implemented yet!!!");;
  modify (set_angles_flag false).

Definition getLines (m : MPU) (inputs : MatrixXd D) : MatrixXd D :=
  let n_time_steps := rows inputs in
  let lines :=
    cwise2 dadd (mul_transpose inputs (slopes_ m))
                (replicate_row n_time_steps (offsets_ m)) in
  if lines_pivot_at_max_activation_ m then
    let ac := slopes_times_centers m in
    cwise2 dsub lines (replicate_row n_time_steps ac)
  else lines.

(** One Gaussian factor,
    [exp(-0.5*pow(x-c,2)/(w*w))]. *)
Definition gauss_factor (x c w : D) : D :=
  dexp (dneghalf * dpow2 (x - c) / (w * w))%D.

(** The static [kernelActivations(centers, widths, inputs,
    kernel_activations, normalized_basis_functions)]; the result is the
    final value of the output parameter [kernel_activations]. *)
Definition kernelActivations_static (centers widths inputs : MatrixXd D)
    (normalized_basis_functions : bool) : MatrixXd D :=
  let n_basis_functions := rows centers in
  let n_samples := rows inputs in
  let n_dims := cols centers in
  if normalized_basis_functions && (n_basis_functions =? 1) then
    filled n_samples n_basis_functions d1
  else
    let kernel_activations :=
      mkMatrix n_samples
        ((fun bb =>
           fold_left (fun column i_dim =>
              let c := coeff centers bb i_dim in
              imap (fun i_s a =>
                 let x := coeff inputs i_s i_dim in
                 let w := coeff widths bb i_dim in
                 (a * gauss_factor x c w)%D) column)
             (seq 0 n_dims) (replicate n_samples d1))
           <$> seq 0 n_basis_functions) in
    if normalized_basis_functions then
      let sum_kernel_activations := rowwise_sum kernel_activations in
      let sum_kernel_activations :=
        if existsb (fun x => deqb x d0) sum_kernel_activations
        then (fun x => (x + maxCoeff sum_kernel_activations / d100000)%D)
               <$> sum_kernel_activations
        else sum_kernel_activations in
      cwise2 ddiv kernel_activations
        (replicate_col sum_kernel_activations n_basis_functions)
    else kernel_activations.

(** The two assertions at the head of the static [kernelActivations]. *)
Definition kernelActivations_assert (centers widths inputs : MatrixXd D) : bool :=
  (rows centers =? rows widths) && (cols centers =? cols widths) &&
  (rows inputs =? rows inputs) && (cols centers =? cols inputs).

(** The caching member [kernelActivations(inputs, kernel_activations)]. *)
Definition kernelActivations (inputs : MatrixXd D) : M D (MatrixXd D) :=
  m ← get;
  if caching_ m
     && (rows inputs =? rows (inputs_cached_ m))
     && (cols inputs =? cols (inputs_cached_ m))
     && matrix_eq_all inputs (inputs_cached_ m)
  then mret (kernel_activations_cached_ m)
  else
    let kernel_activations :=
      kernelActivations_static (centers_ m) (widths_ m) inputs
        (normalized_basis_functions_ m) in
    (if caching_ m
     then modify (set_cache inputs kernel_activations)
     else mret tt);;
    mret kernel_activations.

Definition getSelectableParameters (m : MPU) : gset string :=
  let selected_values_labels : gset string := ∅ in
  let selected_values_labels := {["centers"]} ∪ selected_values_labels in
  let selected_values_labels := {["widths"]} ∪ selected_values_labels in
  let selected_values_labels := {["offsets"]} ∪ selected_values_labels in
  let selected_values_labels := {["slopes"]} ∪ selected_values_labels in
  let selected_values_labels := {["priors"]} ∪ selected_values_labels in
  selected_values_labels.

(** [getParameterVectorMask]: the mask and the final value of the
    local variable [offset]. *)
Definition getParameterVectorMask_run (m : MPU)
    (selected_values_labels : gset string) : list nat * nat :=
  let selected_mask := replicate (getParameterVectorAllSize m) 0 in
  let offset := 0 in
  (* Centers *)
  let size := rows (centers_ m) * cols (centers_ m) in
  let selected_mask :=
    if bool_decide ("centers" ∈ selected_values_labels)
    then fill_segment offset size 1 selected_mask else selected_mask in
  let offset := offset + size in
  (* Widths *)
  let size := rows (widths_ m) * cols (widths_ m) in
  let selected_mask :=
    if bool_decide ("widths" ∈ selected_values_labels)
    then fill_segment offset size 2 selected_mask else selected_mask in
  let offset := offset + size in
  (* Offsets *)
  let size := length (offsets_ m) * 1 in
  let selected_mask :=
    if bool_decide ("offsets" ∈ selected_values_labels)
    then fill_segment offset size 3 selected_mask else selected_mask in
  let offset := offset + size in
  (* Slopes *)
  let size := rows (slopes_ m) * cols (slopes_ m) in
  let selected_mask :=
    if bool_decide ("slopes" ∈ selected_values_labels)
    then fill_segment offset size 4 selected_mask else selected_mask in
  let offset := offset + size in
  (selected_mask, offset).

Definition getParameterVectorMask (m : MPU)
    (selected_values_labels : gset string) : list nat :=
  (getParameterVectorMask_run m selected_values_labels).1.

(** [assert(offset == getParameterVectorAllSize())] at its end. *)
Definition getParameterVectorMask_assert (m : MPU)
    (selected_values_labels : gset string) : bool :=
  (getParameterVectorMask_run m selected_values_labels).2
    =? getParameterVectorAllSize m.

(** [for (i_dim...) { values.segment(offset, A.rows()) = f(A.col(i_dim));
    offset += A.rows(); }], on the pair of [values] and [offset]. *)
Definition write_columns (f : list D -> list D) (A : MatrixXd D)
    (vo : VectorXd D * nat) : VectorXd D * nat :=
  fold_left (fun vo i_dim =>
               (set_segment vo.2 (f (col i_dim A)) vo.1, vo.2 + rows A))
            (seq 0 (cols A)) vo.

(** [getParameterVectorAll]: the vector and the final value of the
    local variable [offset]. [values] is the content of the output
    parameter right after [values.resize(getParameterVectorAllSize())]:
    it has that many coefficients, and Eigen leaves their values
    unspecified. *)
Definition getParameterVectorAll_run (m : MPU) (values : VectorXd D)
    : VectorXd D * nat :=
  let offset := 0 in
  let vo := write_columns (fun c => c) (centers_ m) (values, offset) in
  let vo := write_columns (fun c => c) (widths_ m) vo in
  let vo := (set_segment vo.2 (offsets_ m) vo.1, vo.2 + length (offsets_ m)) in
  let vo :=
    write_columns
      (fun cur_slopes =>
         if slopes_as_angles_ m
         then (fun s => datan2 s d1) <$> cur_slopes
         else cur_slopes)
      (slopes_ m) vo in
  vo.

Definition getParameterVectorAll (m : MPU) (values : VectorXd D) : VectorXd D :=
  (getParameterVectorAll_run m values).1.

(** [assert(offset == getParameterVectorAllSize())] at its end. *)
Definition getParameterVectorAll_assert (m : MPU) (values : VectorXd D) : bool :=
  (getParameterVectorAll_run m values).2 =? getParameterVectorAllSize m.

(** [setParameterVectorAll]; it returns the final value of the local
    variable [offset] (0 on the early return) for the sake of
    the assertion at its end. The line written to [cerr] starts with
    [__FILE__:__LINE__], which the event leaves out. The
    local copy [old_slopes] is never read and is left out. *)
Definition setParameterVectorAll_run (values : VectorXd D) : M D nat :=
  m ← get;
  if negb (all_values_vector_size_ m =? length values) then
    emit (Cerr ": values is of wrong size.");;
    mret 0
  else
    let offset := 0 in
    let size := rows (centers_ m) in
    let n_dims := cols (centers_ m) in
    offset ← for_loop n_dims (fun i_dim offset =>
      m ← get;
      (if negb (array_eq_all (col i_dim (centers_ m)) (segment offset size values))
       then clearCache else mret tt);;
      modify (fun m =>
        set_centers (set_col i_dim (segment offset size values) (centers_ m)) m);;
      mret (offset + size)) offset;
    offset ← for_loop n_dims (fun i_dim offset =>
      m ← get;
      (if negb (array_eq_all (col i_dim (widths_ m)) (segment offset size values))
       then clearCache else mret tt);;
      modify (fun m =>
        set_widths (set_col i_dim (segment offset size values) (widths_ m)) m);;
      mret (offset + size)) offset;
    modify (set_offsets (segment offset size values));;
    let offset := offset + size in
    offset ← for_loop n_dims (fun i_dim offset =>
      modify (fun m =>
        set_slopes (set_col i_dim (segment offset size values) (slopes_ m)) m);;
      mret (offset + size)) offset;
    mret offset.

Definition setParameterVectorAll (values : VectorXd D) : M D unit :=
  setParameterVectorAll_run values;; mret tt.

End Members.

(** ** Two interpretations of [double] *)

(** The real numbers: arithmetic without rounding. *)
Module Exact.

Definition Reqb (x y : R) : bool := if Req_dec_T x y then true else false.
Definition Rgtb (x y : R) : bool := if Rgt_dec x y then true else false.

(** [atan2(y, x)], the angle of the point [(x, y)] in (-PI, PI]. *)
Definition Ratan2 (y x : R) : R :=
  if Rlt_dec 0 x then atan (y / x)
  else if Rlt_dec x 0 then
    (if Rle_dec 0 y then atan (y / x) + PI else atan (y / x) - PI)
  else if Rlt_dec 0 y then PI / 2
  else if Rlt_dec y 0 then - PI / 2
  else 0.

#[global] Instance R_Arith : Arith R := {|
  d0 := 0%R; d1 := 1%R; dneghalf := (- (1 / 2))%R; d100000 := 100000%R;
  dadd := Rplus; dsub := Rminus; dmul := Rmult; ddiv := Rdiv;
  deqb := Reqb; dgtb := Rgtb
|}.

#[global] Instance R_Libm : Libm R := {|
  dexp := exp; dpow2 := fun x => (x ^ 2)%R
|}.

#[global] Instance R_Atan2 : Atan2 R := {| datan2 := Ratan2 |}.

End Exact.

(** IEEE 754 binary64, through the primitive floats. *)
Module Binary64.
Local Open Scope float_scope.

(** [exp(r)] for small [|r|]: the Taylor polynomial of degree 13. *)
Definition exp_poly (r : float) : float :=
  fold_right (fun k acc => 1 + r / k * acc) 1
    [1; 2; 3; 4; 5; 6; 7; 8; 9; 10; 11; 12; 13].

(** A stand-in for the C library's [exp], which is not part of the
    sources. Its values at NaN, at the infinities and beyond the
    overflow and underflow thresholds are those that ISO C (Annex F)
    and IEEE 754 prescribe: [exp(NaN)] is NaN, [exp(-inf)] is [+0],
    [exp(+inf)] is [+inf]. In between it computes
    [exp(x / 1024) ^ 1024], which is close to, but not always the
    correctly rounded value; no statement below depends on that range
    other than through [dexp]. *)
Definition fexp (x : float) : float :=
  if PrimFloat.is_nan x then x
  else if x <? -746 then 0
  else if 710 <? x then infinity
  else
    fold_left (fun y _ => y * y) (seq 0 10) (exp_poly (x / 1024)).

#[global] Instance float_Arith : Arith float := {|
  d0 := 0; d1 := 1; dneghalf := -0.5; d100000 := 100000;
  dadd := PrimFloat.add; dsub := PrimFloat.sub;
  dmul := PrimFloat.mul; ddiv := PrimFloat.div;
  deqb := PrimFloat.eqb; dgtb := fun x y => PrimFloat.ltb y x
|}.

(** [pow(x, 2)] is [x * x] (compilers fold it to that). *)
#[global] Instance float_Libm : Libm float := {|
  dexp := fexp; dpow2 := fun x => x * x
|}.

(** [atan2] belongs to the C library, which is not part of the sources.
    The source calls it in [getParameterVectorAll] only, and only when
    [slopes_as_angles_] is set, which it is in no valid model; no run
    below reaches it (lemma [getParameterVectorAll_any_atan2]). The
    stand-in answers NaN. *)
#[global] Instance float_Atan2 : Atan2 float := {|
  datan2 := fun _ _ => nan
|}.

End Binary64.

(** ** Valid models *)

Section Validity.
Context {D : Type} `{Arith D}.

(** The class invariant: what [checkDimensions] asserts and computes, the
    representation invariant of the three matrices, and the value [false]
    that every constructor gives [slopes_as_angles_] and that
    [set_slopes_as_angles] restores on every call. *)
Record valid (m : ModelParametersUnified D) : Prop := {
  valid_shapes : checkDimensions_assert m = true;
  valid_centers : wf_matrix (centers_ m);
  valid_widths : wf_matrix (widths_ m);
  valid_slopes : wf_matrix (slopes_ m);
  valid_size :
    all_values_vector_size_ m =
    rows (centers_ m) * cols (centers_ m) + rows (widths_ m) * cols (widths_ m)
    + length (offsets_ m) * 1 + rows (slopes_ m) * cols (slopes_ m)
    + length (priors_ m) * 1;
  valid_angles : slopes_as_angles_ m = false
}.

(** Every coefficient compares equal to itself: in binary64, none is
    NaN. *)
Definition self_equal (A : MatrixXd D) : Prop :=
  Forall (Forall (fun x => deqb x x = true)) (columns A).

(** [n_basis] and [n_dims] of a model. *)
Definition n_basis (m : ModelParametersUnified D) : nat := rows (centers_ m).
Definition n_dims (m : ModelParametersUnified D) : nat := cols (centers_ m).

(** The value of line [b] at sample [s]: the entry of the matrix that
    [getLines] returns. *)
Definition line_value (m : ModelParametersUnified D) (inputs : MatrixXd D)
    (s b : nat) : D :=
  let y := (dot (row s inputs) (row b (slopes_ m)) + nth b (offsets_ m) d0)%D in
  if lines_pivot_at_max_activation_ m
  then (y - dot (row b (slopes_ m)) (row b (centers_ m)))%D
  else y.

End Validity.

(** ** The activation formula of the design document *)

Section ActivationFormula.
Context {D : Type} `{Arith D, Libm D}.

(** The product of [f 0], ..., [f (n - 1)], multiplied up from 1 in the
    order of the indices. *)
Fixpoint product_upto (n : nat) (f : nat -> D) : D :=
  match n with
  | 0 => d1
  | S k => (product_upto k f * f k)%D
  end.

(** "activation(s,b) = product over dims d of
    exp(-0.5 (x[s,d] - center[b,d])^2 / width[b,d]^2)", a square being
    the product of a number with itself. *)
Definition activation_formula (centers widths inputs : MatrixXd D) (s b : nat) : D :=
  product_upto (cols centers) (fun d =>
    let x := coeff inputs s d in
    let c := coeff centers b d in
    let w := coeff widths b d in
    dexp (dneghalf * ((x - c) * (x - c)) / (w * w))%D).

(** The row sums that the normalisation divides by: those of the
    activations [U], and, if one of them is zero, each of them with
    [max / 100000] added. *)
Definition normalizing_sums (U : MatrixXd D) : list D :=
  let sums := rowwise_sum U in
  if existsb (fun x => deqb x d0) sums
  then (fun x => (x + maxCoeff sums / d100000)%D) <$> sums
  else sums.

(** The loop over [i_s] of the static [kernelActivations], for basis
    function [bb] and dimension [i_dim], as a function of the column. *)
Definition kernel_step (centers widths inputs : MatrixXd D) (bb : nat)
    (column : list D) (i_dim : nat) : list D :=
  imap (fun i_s a =>
          (a * gauss_factor (coeff inputs i_s i_dim) (coeff centers bb i_dim)
                            (coeff widths bb i_dim))%D) column.

End ActivationFormula.

(** ** [setParameterVectorAll] in one step *)

Section BigStep.
Context {D : Type} `{Arith D}.

(** The [d] columns that a loop of [setParameterVectorAll] reads from
    [values], the first at index [base], each of [size] coefficients. *)
Definition new_columns (values : VectorXd D) (base size d : nat) : list (list D) :=
  (fun i => segment (base + i * size) size values) <$> seq 0 d.

(** The columns of [A], among the first [k], for which such a loop calls
    [clearCache]: those that do not compare equal to the segment that
    replaces them. The loop over the slopes compares nothing
    ([check = false]). *)
Definition changed_columns (check : bool) (values : VectorXd D) (A : MatrixXd D)
    (base size k : nat) : list nat :=
  List.filter
    (fun i => check &&
              negb (array_eq_all (col i A) (segment (base + i * size) size values)))
    (seq 0 k).

(** The columns for which [setParameterVectorAll] calls [clearCache]:
    first those of the centers, then those of the widths. *)
Definition cache_clearing_columns (values : VectorXd D)
    (m : ModelParametersUnified D) : list nat :=
  let size := rows (centers_ m) in
  let n_dims := cols (centers_ m) in
  changed_columns true values (centers_ m) 0 size n_dims ++
  changed_columns true values (widths_ m) (n_dims * size) size n_dims.

(** The state that [setParameterVectorAll] leaves, given a vector of
    the right length. *)
Definition after_setParameterVectorAll (values : VectorXd D)
    (m : ModelParametersUnified D) : ModelParametersUnified D :=
  let size := rows (centers_ m) in
  let n_dims := cols (centers_ m) in
  let kept := match cache_clearing_columns values m with [] => true | _ => false end in
  mkMPU
    (mkMatrix (rows (centers_ m)) (new_columns values 0 size n_dims))
    (mkMatrix (rows (widths_ m)) (new_columns values (n_dims * size) size n_dims))
    (mkMatrix (rows (slopes_ m))
       (new_columns values (n_dims * size + n_dims * size + size) size n_dims))
    (segment (n_dims * size + n_dims * size) size values)
    (priors_ m)
    (normalized_basis_functions_ m) (lines_pivot_at_max_activation_ m)
    (slopes_as_angles_ m) (all_values_vector_size_ m) (caching_ m)
    (if kept then inputs_cached_ m else empty_matrix)
    (if kept then kernel_activations_cached_ m else empty_matrix).

End BigStep.

(** ** Writes and queries *)

Section Caching.
Context {D : Type} `{Arith D, Libm D, Atan2 D}.

(** A call of [setParameterVectorAll] or of the caching
    [kernelActivations]. *)
Inductive op :=
| Write (values : VectorXd D)
| Query (inputs : MatrixXd D).

(** The activations computed afresh from the current centers and
    widths. *)
Definition direct (m : ModelParametersUnified D) (inputs : MatrixXd D) : MatrixXd D :=
  kernelActivations_static (centers_ m) (widths_ m) inputs
    (normalized_basis_functions_ m).

(** Every query of the sequence returns what the computation afresh
    would return at that moment. *)
Fixpoint transparent (ops : list op) (m : ModelParametersUnified D) : Prop :=
  match ops with
  | [] => True
  | Write values :: ops' =>
      transparent ops' (state_of (setParameterVectorAll values m))
  | Query inputs :: ops' =>
      result_of (kernelActivations inputs m) = Returned (direct m inputs) /\
      transparent ops' (state_of (kernelActivations inputs m))
  end.

(** The memo holds nothing: the state after construction and after
    [clearCache]. *)
Definition memo_empty (m : ModelParametersUnified D) : Prop :=
  inputs_cached_ m = empty_matrix /\ kernel_activations_cached_ m = empty_matrix.

(** The memo holds nothing, or the activations of the inputs it holds. *)
Definition cache_ok (m : ModelParametersUnified D) : Prop :=
  wf_matrix (inputs_cached_ m) /\
  (memo_empty m \/ kernel_activations_cached_ m = direct m (inputs_cached_ m)).

(** A query with a matrix that has a row or a column. *)
Definition proper (o : op) : Prop :=
  match o with
  | Write _ => True
  | Query inputs => wf_matrix inputs /\ (rows inputs <> 0 \/ cols inputs <> 0)
  end.

End Caching.

Arguments op D : clear implicits.

(** ** Further member functions *)

Section MoreMembers.
Context {D : Type} `{Arith D, Libm D, Atan2 D}.

(** [locallyWeightedLines(inputs, output)]; the result is the final
    value of the output parameter, a matrix of one column. Eigen
    requires the two factors of the product to have one shape;
    [cwise2] takes the row count of the first and the columns that
    both have. *)
Definition locallyWeightedLines (inputs : MatrixXd D) : M D (MatrixXd D) :=
  m ← get;
  let lines := getLines m inputs in
  activations ← kernelActivations inputs;
  let weighted := cwise2 dmul lines activations in
  mret (mkMatrix (rows weighted) [rowwise_sum weighted]).

(** [setParameterVectorModifierPrivate(modifier, new_value)];
    [modifier.compare(s) == 0] is equality of strings. *)
Definition setParameterVectorModifierPrivate (modifier : string)
    (new_value : bool) : M D unit :=
  (if String.eqb modifier "lines_pivot_at_max_activation"
   then set_lines_pivot_at_max_activation new_value else mret tt);;
  (if String.eqb modifier "slopes_as_angles"
   then set_slopes_as_angles new_value else mret tt).

(** A call of a member function that can change the object. *)
Inductive call :=
| Call_setParameterVectorAll (values : VectorXd D)
| Call_set_lines_pivot_at_max_activation (lines_pivot_at_max_activation : bool)
| Call_set_slopes_as_angles (slopes_as_angles : bool)
| Call_setParameterVectorModifierPrivate (modifier : string) (new_value : bool)
| Call_kernelActivations (inputs : MatrixXd D)
| Call_locallyWeightedLines (inputs : MatrixXd D).

(** The object after a call. The properties below take a query whose
    matrix has one column for each dimension of the model ([call_ok]):
    for any other the source reads outside the matrix. *)
Definition after_call (m : ModelParametersUnified D) (c : call)
    : ModelParametersUnified D :=
  match c with
  | Call_setParameterVectorAll values =>
      state_of (setParameterVectorAll values m)
  | Call_set_lines_pivot_at_max_activation b =>
      state_of (set_lines_pivot_at_max_activation b m)
  | Call_set_slopes_as_angles b =>
      state_of (set_slopes_as_angles b m)
  | Call_setParameterVectorModifierPrivate modifier new_value =>
      state_of (setParameterVectorModifierPrivate modifier new_value m)
  | Call_kernelActivations inputs =>
      state_of (kernelActivations inputs m)
  | Call_locallyWeightedLines inputs =>
      state_of (locallyWeightedLines inputs m)
  end.

(** The calls whose arguments the source reads within bounds: the
    matrix of a query has one column for each dimension of the model.
    A vector of any length and a modifier of any name are handled by
    the source. *)
Definition call_ok (m : ModelParametersUnified D) (c : call) : Prop :=
  match c with
  | Call_kernelActivations inputs | Call_locallyWeightedLines inputs =>
      wf_matrix inputs /\ cols inputs = n_dims m
  | _ => True
  end.

(** What no call changes: the number of basis functions and of
    dimensions, the priors, the two flags that have no setter, and the
    length of the full vector. *)
Definition same_frame (m m' : ModelParametersUnified D) : Prop :=
  n_basis m' = n_basis m /\ n_dims m' = n_dims m /\
  priors_ m' = priors_ m /\
  normalized_basis_functions_ m' = normalized_basis_functions_ m /\
  caching_ m' = caching_ m /\
  getParameterVectorAllSize m' = getParameterVectorAllSize m.

(** The matrix of [n] rows and [nb] columns whose entry [(s, b)] is
    [g b s]. *)
Definition matrix_of_entries (n nb : nat) (g : nat -> nat -> D) : MatrixXd D :=
  mkMatrix n ((fun b => (fun s => g b s) <$> seq 0 n) <$> seq 0 nb).

(** The prediction of the model for sample [s]: the lines weighted by
    the activations computed afresh, summed over the basis functions. *)
Definition weighted_sum (m : ModelParametersUnified D) (inputs : MatrixXd D)
    (s : nat) : D :=
  sum ((fun b => (line_value m inputs s b * coeff (direct m inputs) s b)%D)
         <$> seq 0 (n_basis m)).

End MoreMembers.

Arguments call D : clear implicits.

(** Laws of zero in exact arithmetic. *)
Class ZeroLaws (D : Type) `{Arith D} := {
  dmul_0_r : forall x : D, (x * d0)%D = d0;
  dmul_0_l : forall x : D, (d0 * x)%D = d0;
  dadd_0_l : forall x : D, (d0 + x)%D = x;
  dsub_0_r : forall x : D, (x - d0)%D = x
}.

(** ** The grid data *)

Section GridData.
Context {D : Type} `{Arith D, Libm D, Atan2 D}.

(** [VectorXd::LinSpaced(size, low, high)] is Eigen's. *)
Variable LinSpaced : nat -> D -> D -> VectorXd D.

(** [A(i, j) = x], for [(i, j)] within the matrix (the source writes
    nowhere else). *)
Definition set_coeff (i j : nat) (x : D) (A : MatrixXd D) : MatrixXd D :=
  mkMatrix (rows A) (<[j := <[i := x]> (col j A)]> (columns A)).

(** The body of the inner loop over [jj] of [saveGridData]. *)
Definition grid_cell (x1 x2 : VectorXd D) (ii jj : nat) (inputs : MatrixXd D)
    : MatrixXd D :=
  let inputs := set_coeff (ii * length x2 + jj) 0 (nth ii x1 d0) inputs in
  let inputs := set_coeff (ii * length x2 + jj) 1 (nth jj x2 d0) inputs in
  inputs.

(** The two nested loops of [saveGridData] on [inputs]. *)
Definition grid_loops (x1 x2 : VectorXd D) (inputs : MatrixXd D) : MatrixXd D :=
  fold_left (fun inputs ii =>
               fold_left (fun inputs jj => grid_cell x1 x2 ii jj inputs)
                         (seq 0 (length x2)) inputs)
            (seq 0 (length x1)) inputs.

(** The matrix [inputs] that [saveGridData] builds. [min[0]] and the
    like are read with the default 0 where the source reads past the
    end of a vector that is shorter than [min] (its assertions on the
    sizes exclude that). For a number of dimensions other than 1 and 2
    [inputs] stays the default-constructed matrix. *)
Definition grid_inputs (min max : VectorXd D) (n_samples_per_dim : list nat)
    : MatrixXd D :=
  let n_dims := length min in
  if n_dims =? 1 then
    let x := LinSpaced (nth 0 n_samples_per_dim 0) (nth 0 min d0) (nth 0 max d0) in
    mkMatrix (length x) [x]
  else if n_dims =? 2 then
    let n_samples := nth 0 n_samples_per_dim 0 * nth 1 n_samples_per_dim 0 in
    let inputs := Zero n_samples n_dims in
    let x1 := LinSpaced (nth 0 n_samples_per_dim 0) (nth 0 min d0) (nth 0 max d0) in
    let x2 := LinSpaced (nth 1 n_samples_per_dim 0) (nth 1 min d0) (nth 1 max d0) in
    grid_loops x1 x2 inputs
  else empty_matrix.

(** The two assertions of [saveGridData]. *)
Definition saveGridData_assert (min max : VectorXd D)
    (n_samples_per_dim : list nat) : bool :=
  (length min =? length max) && (length min =? length n_samples_per_dim).

(** The matrices that [saveGridData] hands to [saveMatrix], in the
    order of the calls, after the vector [n_samples_per_dim]. *)
Record grid_data := mkGridData {
  inputs_grid : MatrixXd D;
  lines_grid : MatrixXd D;
  weighted_lines_grid : MatrixXd D;
  activations_grid : MatrixXd D;
  activations_normalized_grid : MatrixXd D
}.

(** [saveGridData]: its result and what it hands to [saveMatrix].
    [saveMatrix] is not among the sources and the function does not
    read what it returns; the line written to [cout] is left out. The
    properties below take [min], [max] and [n_samples_per_dim] that
    meet the assertions and have one coefficient for each dimension of
    the model: for any other the source reads outside a vector or a
    matrix. *)
Definition saveGridData (min max : VectorXd D) (n_samples_per_dim : list nat)
    (save_directory : string) (overwrite : bool) : M D (bool * option grid_data) :=
  if String.eqb save_directory "" then mret (true, None)
  else
    let inputs := grid_inputs min max n_samples_per_dim in
    m ← get;
    let lines := getLines m inputs in
    weighted_lines ← locallyWeightedLines inputs;
    let activations :=
      kernelActivations_static (centers_ m) (widths_ m) inputs false in
    let normalized_activations :=
      kernelActivations_static (centers_ m) (widths_ m) inputs true in
    mret (true, Some (mkGridData inputs lines weighted_lines activations
                        normalized_activations)).

(** The first [k] rows of a grid of two columns are filled: row
    [ii * n2 + jj] holds [x1[ii]] and [x2[jj]]. *)
Definition grid_filled (x1 x2 : VectorXd D) (k n_samples : nat)
    (inputs : MatrixXd D) : Prop :=
  exists c0 c1,
    inputs = mkMatrix n_samples [c0; c1] /\
    length c0 = n_samples /\ length c1 = n_samples /\
    forall ii jj, jj < length x2 -> ii * length x2 + jj < k ->
      c0 !! (ii * length x2 + jj) = Some (nth ii x1 d0) /\
      c1 !! (ii * length x2 + jj) = Some (nth jj x2 d0).

End GridData.

Arguments grid_data D : clear implicits.

(** ** A model to run the functions on *)

(** The locally weighted regression of the design document's scenario:
    three basis functions over one input dimension, centers 30, 40, 50,
    widths 5, slopes 1, offsets 0, lines pivoting at the origin, the
    activation cache switched on. *)
Definition lwr3 : ModelParametersUnified R :=
  ModelParametersUnified_lines
    (mkMatrix 3 [[30; 40; 50]%R]) (mkMatrix 3 [[5; 5; 5]%R])
    (mkMatrix 3 [[1; 1; 1]%R]) [0; 0; 0]%R false false true.

(** The same model with its lines in the pivot form. *)
Definition lwr3_pivot : ModelParametersUnified R :=
  ModelParametersUnified_lines
    (mkMatrix 3 [[30; 40; 50]%R]) (mkMatrix 3 [[5; 5; 5]%R])
    (mkMatrix 3 [[1; 1; 1]%R]) [0; 0; 0]%R false true true.

(** One line of slope 1 and offset 0.1 (the binary64 number nearest to
    it, [0x1.999999999999ap-4]) whose Gaussian is centred far out, at
    2^55, in binary64. *)
Definition steep_model : ModelParametersUnified float :=
  ModelParametersUnified_lines
    (mkMatrix 1 [[36028797018963968]%float]) (mkMatrix 1 [[1]%float])
    (mkMatrix 1 [[1]%float]) [0x1.999999999999ap-4]%float false false false.

(** Two Gaussians of width 1 with constant lines in binary64, the
    first of them centred at NaN, the activation cache switched on. *)
Definition nan_model : ModelParametersUnified float :=
  ModelParametersUnified_lines
    (mkMatrix 2 [[nan; 1]%float]) (mkMatrix 2 [[1; 1]%float])
    (mkMatrix 2 [[0; 0]%float]) [0; 0]%float false false true.

(** Two basis functions over no input dimension at all (the centers
    are a 2 x 0 matrix), the activation cache switched on. *)
Definition lwr_no_dims : ModelParametersUnified R :=
  ModelParametersUnified_lines
    (mkMatrix 2 []) (mkMatrix 2 []) (mkMatrix 2 []) [0; 0]%R false false true.

(** Two Gaussians of width 1 at 0 and at 1, and a query at 100, in
    binary64: the query is so far from both centers that both
    activations underflow to zero. *)
Definition far_centers : MatrixXd float := mkMatrix 2 [[0; 1]%float].
Definition far_widths : MatrixXd float := mkMatrix 2 [[1; 1]%float].
Definition far_inputs : MatrixXd float := mkMatrix 1 [[100]%float].

(** Eigen's [LinSpaced] over the real numbers, as Eigen documents it:
    [low + i * (high - low) / (size - 1)], and [high] alone for size 1. *)
Definition LinSpaced_exact (size : nat) (low high : R) : VectorXd R :=
  if size =? 1 then [high]
  else (fun i => low + INR i * (high - low) / (INR size - 1))%R <$> seq 0 size.

(** Two Gaussians of width 1 at 0 and at 1 with constant lines, in
    binary64, the activation cache switched on. *)
Definition near_model : ModelParametersUnified float :=
  ModelParametersUnified_lines
    (mkMatrix 2 [[0; 1]%float]) (mkMatrix 2 [[1; 1]%float])
    (mkMatrix 2 [[0; 0]%float]) [0; 0]%float false false true.

(** ** Properties *)

(** *** The two interpretations *)

Lemma Reqb_eq (x y : R) : Exact.Reqb x y = true <-> x = y.
Proof. unfold Exact.Reqb. destruct (Req_dec_T x y); split; congruence. Qed.

#[global] Instance R_ExactArith : ExactArith R.
Proof. split; simpl; intros; lra. Qed.

#[global] Instance R_ExactEq : ExactEq R.
Proof. intros x y. apply Reqb_eq. Qed.

(** *** Lists, segments and loops *)

Section ListFacts.
Context {A : Type}.
Implicit Types l v w pre post : list A.

Lemma set_segment_app pre old w post offset :
  length pre = offset -> length old = length w ->
  set_segment offset w (pre ++ old ++ post) = pre ++ w ++ post.
Proof.
  intros Hpre Hold. unfold set_segment. subst offset.
  rewrite take_app_length. f_equal. f_equal.
  rewrite drop_app_add'; [|done].
  rewrite <- Hold. apply drop_app_length.
Qed.

Lemma segment_app pre w post offset :
  length pre = offset ->
  segment offset (length w) (pre ++ w ++ post) = w.
Proof.
  intros Hpre. unfold segment.
  rewrite drop_app_length'; [|done]. apply take_app_length.
Qed.

End ListFacts.

(** *** Vectors given by their coefficients *)

Lemma lookup_tabulate {A} (g : nat -> A) k i :
  (g <$> seq 0 k) !! i = if decide (i < k) then Some (g i) else None.
Proof.
  rewrite list_lookup_fmap. destruct (decide (i < k)) as [Hi|Hi].
  - by rewrite lookup_seq_lt.
  - rewrite lookup_ge_None_2; [done|]. rewrite length_seq. lia.
Qed.

Lemma tabulate_ext {A} (g h : nat -> A) k :
  (forall i, i < k -> g i = h i) -> g <$> seq 0 k = h <$> seq 0 k.
Proof.
  intros Hgh. apply list_fmap_ext. intros i x Hx.
  apply lookup_seq in Hx as [-> Hi]. by apply Hgh.
Qed.

Section Tabulate.
Context {A B C : Type}.

Lemma zip_with_tabulate_replicate (f : A -> B -> C) (g : nat -> A) k y :
  zip_with f (g <$> seq 0 k) (replicate k y) = (fun i => f (g i) y) <$> seq 0 k.
Proof.
  apply list_eq. intros i.
  rewrite lookup_zip_with, !lookup_tabulate.
  destruct (decide (i < k)) as [Hi|Hi]; [|done].
  by rewrite lookup_replicate_2.
Qed.

End Tabulate.

(** *** Runs of monadic code *)

Section MonadFacts.
Context {D : Type} `{Arith D}.

Lemma bind_run {A B} (c : M D A) (k : A -> M D B) m a m1 t1 :
  c m = (Returned a, m1, t1) ->
  (c ≫= k) m = match k a m1 with (r, m2, t2) => (r, m2, t1 ++ t2) end.
Proof. intros Hc. unfold mbind, M_bind. by rewrite Hc. Qed.

Lemma for_each_app {A} (l1 l2 : list nat) (body : nat -> A -> M D A) a m :
  for_each (l1 ++ l2) body a m = (for_each l1 body a ≫= for_each l2 body) m.
Proof.
  revert a m. induction l1 as [|i l1 IH]; intros a m; cbn [app for_each].
  - unfold mbind, M_bind, mret, M_ret.
    by destruct (for_each l2 body a m) as [[r m2] t2].
  - unfold mbind, M_bind in *.
    destruct (body i a m) as [[[a1|e] m1] t1]; [|done].
    rewrite IH.
    destruct (for_each l1 body a1 m1) as [[[a2|e] m2] t2]; [|done].
    destruct (for_each l2 body a2 m2) as [[r m3] t3].
    by rewrite (assoc_L (++)).
Qed.

Lemma for_loop_S {A} n (body : nat -> A -> M D A) a m a1 m1 t1 :
  for_loop n body a m = (Returned a1, m1, t1) ->
  for_loop (S n) body a m =
  match body n a1 m1 with (r, m2, t2) => (r, m2, t1 ++ t2) end.
Proof.
  intros Hn. unfold for_loop in *. rewrite seq_S, for_each_app.
  rewrite (bind_run _ _ _ _ _ _ Hn). cbn [for_each Nat.add].
  unfold mbind, M_bind, mret, M_ret.
  destruct (body n a1 m1) as [[[a2|e] m2] t2]; [|done].
  by rewrite (right_id_L [] (++)).
Qed.

End MonadFacts.

(** *** Shapes of a valid model *)

Section ShapeFacts.
Context {D : Type} `{Arith D}.
Implicit Types m : ModelParametersUnified D.

Lemma valid_dims m :
  valid m ->
  rows (widths_ m) = n_basis m /\ cols (widths_ m) = n_dims m /\
  rows (slopes_ m) = n_basis m /\ cols (slopes_ m) = n_dims m /\
  length (offsets_ m) = n_basis m /\ length (priors_ m) = n_basis m.
Proof.
  intros [Hs _ _ _ _ _]. unfold checkDimensions_assert in Hs.
  repeat (apply andb_prop in Hs; destruct Hs as [Hs ?]).
  repeat match goal with
         | E : (_ =? _) = true |- _ => apply Nat.eqb_eq in E
         end.
  unfold n_basis, n_dims. repeat split; congruence.
Qed.

Lemma valid_all_size m :
  valid m ->
  getParameterVectorAllSize m =
  n_basis m * n_dims m + n_basis m * n_dims m + n_basis m
  + n_basis m * n_dims m + n_basis m.
Proof.
  intros Hv. destruct (valid_dims m Hv) as (Hw1 & Hw2 & Hs1 & Hs2 & Ho & Hp).
  unfold getParameterVectorAllSize. rewrite (valid_size m Hv).
  rewrite Hw1, Hw2, Hs1, Hs2, Ho, Hp. unfold n_basis, n_dims. lia.
Qed.

End ShapeFacts.

(** *** The running example is valid *)

Ltac prove_valid :=
  split;
  [ reflexivity
  | repeat constructor | repeat constructor | repeat constructor
  | reflexivity | reflexivity ].

Lemma lwr3_valid : valid lwr3.
Proof. prove_valid. Qed.

(** *** Construction and [clone] *)

Section CloneProperties.
Context {D : Type} `{Arith D, Libm D, Atan2 D}.

Lemma construct_fields (centers widths slopes : MatrixXd D)
    (offsets priors : VectorXd D) (nbf pivot caching0 : bool) :
  construct centers widths slopes offsets priors nbf pivot caching0 =
  mkMPU centers widths slopes offsets priors nbf pivot false
    (rows centers * cols centers + rows widths * cols widths
     + length offsets * 1 + rows slopes * cols slopes + length priors * 1)
    caching0 empty_matrix empty_matrix.
Proof. reflexivity. Qed.

(** Claim C10. [clone()] copies the centers, widths, slopes, offsets,
    the normalisation flag and the pivot flag of the original, and gives
    the copy a priors vector of ones, one per basis function, whatever
    the priors of the original are. *)
Theorem clone_resets_priors (caching0 : bool) (m : ModelParametersUnified D) :
  let c := clone caching0 m in
  centers_ c = centers_ m /\
  widths_ c = widths_ m /\
  slopes_ c = slopes_ m /\
  offsets_ c = offsets_ m /\
  normalized_basis_functions_ c = normalized_basis_functions_ m /\
  lines_pivot_at_max_activation_ c = lines_pivot_at_max_activation_ m /\
  length (priors_ c) = rows (centers_ m) /\
  (forall b, b < rows (centers_ m) -> priors_ c !! b = Some d1).
Proof.
  unfold clone, ModelParametersUnified_lines. rewrite construct_fields. simpl.
  repeat split.
  - unfold Ones. apply length_replicate.
  - intros b Hb. unfold Ones. apply lookup_replicate_2. exact Hb.
Qed.

End CloneProperties.

(** For instance, priors of 2 are ones in the clone. *)
Example clone_forgets_priors :
  priors_ (clone true
             (ModelParametersUnified_priors
                (mkMatrix 3 [[30; 40; 50]%R]) (mkMatrix 3 [[5; 5; 5]%R])
                (mkMatrix 3 [[1; 1; 1]%R]) [0; 0; 0]%R [2; 2; 2]%R
                false false true))
  = [1; 1; 1]%R.
Proof. reflexivity. Qed.

(** *** Flattening: sizes, mask and labels *)

Section FlatteningProperties.
Context {D : Type} `{Arith D, Libm D, Atan2 D}.
Implicit Types m : ModelParametersUnified D.

Lemma write_columns_offset (f : list D -> list D) (A : MatrixXd D) vo :
  (write_columns f A vo).2 = vo.2 + cols A * rows A.
Proof.
  unfold write_columns.
  replace (cols A * rows A) with (length (seq 0 (cols A)) * rows A)
    by (by rewrite length_seq).
  generalize (seq 0 (cols A)) as l. intros l. revert vo.
  induction l as [|i l IH]; intros vo; cbn [fold_left length].
  - lia.
  - rewrite IH. cbn [snd]. lia.
Qed.

Lemma getParameterVectorAll_offset m values :
  valid m ->
  (getParameterVectorAll_run m values).2 =
  n_basis m * n_dims m + n_basis m * n_dims m + n_basis m + n_basis m * n_dims m.
Proof.
  intros Hv. destruct (valid_dims m Hv) as (Hw1 & Hw2 & Hs1 & Hs2 & Ho & Hp).
  unfold getParameterVectorAll_run.
  rewrite write_columns_offset. cbn [snd].
  rewrite write_columns_offset. cbn [snd].
  rewrite write_columns_offset. cbn [snd].
  rewrite Hw1, Hw2, Hs1, Hs2, Ho. unfold n_basis, n_dims. lia.
Qed.

Lemma getParameterVectorMask_offset m labels :
  valid m ->
  (getParameterVectorMask_run m labels).2 =
  n_basis m * n_dims m + n_basis m * n_dims m + n_basis m + n_basis m * n_dims m.
Proof.
  intros Hv. destruct (valid_dims m Hv) as (Hw1 & Hw2 & Hs1 & Hs2 & Ho & Hp).
  unfold getParameterVectorMask_run. cbn [snd].
  rewrite Hw1, Hw2, Hs1, Hs2, Ho. unfold n_basis, n_dims. lia.
Qed.

(** Claim C7 does not hold of the code. [checkDimensions] counts the
    priors in [getParameterVectorAllSize()], and neither
    [getParameterVectorAll] nor [getParameterVectorMask] has a priors
    segment: at their end [offset] is short of the size by the number of
    basis functions, and the assertion [offset ==
    getParameterVectorAllSize()] of both is false for every valid model
    with at least one basis function. *)
Theorem flattening_offset_short_of_size m values labels :
  valid m ->
  (getParameterVectorAll_run m values).2 + n_basis m
    = getParameterVectorAllSize m /\
  (getParameterVectorMask_run m labels).2 + n_basis m
    = getParameterVectorAllSize m /\
  (0 < n_basis m ->
   getParameterVectorAll_assert m values = false /\
   getParameterVectorMask_assert m labels = false).
Proof.
  intros Hv.
  pose proof (getParameterVectorAll_offset m values Hv) as Ha.
  pose proof (getParameterVectorMask_offset m labels Hv) as Hm.
  pose proof (valid_all_size m Hv) as Hs.
  split; [lia|]. split; [lia|].
  intros Hpos. unfold getParameterVectorAll_assert, getParameterVectorMask_assert.
  split; apply Nat.eqb_neq; lia.
Qed.

Lemma getSelectableParameters_eq m :
  getSelectableParameters m =
  {["centers"; "widths"; "offsets"; "slopes"; "priors"]}.
Proof. unfold getSelectableParameters. set_solver. Qed.

Lemma getParameterVectorMask_valid m (labels : gset string) :
  valid m ->
  getParameterVectorMask m labels =
    replicate (n_basis m * n_dims m)
      (if bool_decide ("centers" ∈ labels) then 1 else 0) ++
    replicate (n_basis m * n_dims m)
      (if bool_decide ("widths" ∈ labels) then 2 else 0) ++
    replicate (n_basis m)
      (if bool_decide ("offsets" ∈ labels) then 3 else 0) ++
    replicate (n_basis m * n_dims m)
      (if bool_decide ("slopes" ∈ labels) then 4 else 0) ++
    replicate (n_basis m) 0.
Proof.
  intros Hv. destruct (valid_dims m Hv) as (Hw1 & Hw2 & Hs1 & Hs2 & Ho & Hp).
  unfold getParameterVectorMask, getParameterVectorMask_run. cbn [fst].
  rewrite (valid_all_size m Hv), Hw1, Hw2, Hs1, Hs2, Ho.
  fold (n_basis m) (n_dims m).
  set (nd := n_basis m * n_dims m). set (n := n_basis m).
  rewrite Nat.mul_1_r, !replicate_add, <- !(assoc_L (++)).
  unfold fill_segment.
  assert (Hc : forall (b : bool) (t : nat) (k : nat) (pre post : list nat) off,
             length pre = off ->
             (if b then set_segment off (replicate k t) (pre ++ replicate k 0 ++ post)
              else pre ++ replicate k 0 ++ post)
             = pre ++ replicate k (if b then t else 0) ++ post).
  { intros b t k pre post off Hoff. destruct b; [|done].
    apply set_segment_app; [done|]. by rewrite !length_replicate. }
  pose proof (fun b post => Hc b 1 nd [] post 0 eq_refl) as Hc0.
  cbn [app] in Hc0. rewrite Hc0.
  rewrite (Hc _ 2 nd (replicate nd _) _ (0 + nd)) by (rewrite length_replicate; lia).
  rewrite (app_assoc (replicate nd _) (replicate nd _)).
  rewrite (Hc _ 3 n (replicate nd _ ++ replicate nd _) _ (0 + nd + nd))
    by (rewrite length_app, !length_replicate; lia).
  rewrite (app_assoc (replicate nd _ ++ replicate nd _) (replicate n _)).
  rewrite (Hc _ 4 nd ((replicate nd _ ++ replicate nd _) ++ replicate n _) _
             (0 + nd + nd + n))
    by (rewrite !length_app, !length_replicate; lia).
  by rewrite <- !(assoc_L (++)).
Qed.

Lemma getParameterVectorMask_priors m :
  getParameterVectorMask m {["priors"]} = replicate (getParameterVectorAllSize m) 0.
Proof.
  unfold getParameterVectorMask, getParameterVectorMask_run. cbn [fst].
  rewrite !bool_decide_eq_false_2 by set_solver. done.
Qed.

(** Claim C9. The label "priors" is one of the five selectable labels,
    yet no entry of the mask is ever tagged for it: in a valid model the
    mask is the centers segment (tag 1 if selected), the widths segment
    (tag 2), the offsets segment (tag 3), the slopes segment (tag 4) and
    zeros in what remains, whatever the labels; and for the selection
    {"priors"} the mask of any model is zero throughout. *)
Theorem priors_selectable_not_maskable m (labels : gset string) :
  getSelectableParameters m =
    {["centers"; "widths"; "offsets"; "slopes"; "priors"]} /\
  (valid m ->
   getParameterVectorMask m labels =
     replicate (n_basis m * n_dims m)
       (if bool_decide ("centers" ∈ labels) then 1 else 0) ++
     replicate (n_basis m * n_dims m)
       (if bool_decide ("widths" ∈ labels) then 2 else 0) ++
     replicate (n_basis m)
       (if bool_decide ("offsets" ∈ labels) then 3 else 0) ++
     replicate (n_basis m * n_dims m)
       (if bool_decide ("slopes" ∈ labels) then 4 else 0) ++
     replicate (n_basis m) 0) /\
  getParameterVectorMask m {["priors"]} =
    replicate (getParameterVectorAllSize m) 0 /\
  (forall i tag, getParameterVectorMask m {["priors"]} !! i = Some tag -> tag = 0).
Proof.
  split; [apply getSelectableParameters_eq|].
  split; [apply getParameterVectorMask_valid|].
  split; [apply getParameterVectorMask_priors|].
  intros i tag. rewrite getParameterVectorMask_priors.
  intros Hi. by apply lookup_replicate_1 in Hi as [-> _].
Qed.

End FlatteningProperties.

(** The two claims on the flattening at the running example. *)
Lemma flattening_offset_short_of_size_witness :
  (getParameterVectorAll_run lwr3 (replicate 15 0%R)).2 + n_basis lwr3
    = getParameterVectorAllSize lwr3 /\
  (getParameterVectorMask_run lwr3 {["slopes"]}).2 + n_basis lwr3
    = getParameterVectorAllSize lwr3 /\
  (0 < n_basis lwr3 ->
   getParameterVectorAll_assert lwr3 (replicate 15 0%R) = false /\
   getParameterVectorMask_assert lwr3 {["slopes"]} = false).
Proof.
  apply (flattening_offset_short_of_size lwr3 (replicate 15 0%R) {["slopes"]}).
  prove_valid.
Defined.

(** The mask of the running example for the labels "priors" and
    "slopes". *)
Lemma priors_selectable_not_maskable_witness :
  valid lwr3 /\
  getParameterVectorMask lwr3 {["priors"; "slopes"]} =
    [0; 0; 0; 0; 0; 0; 0; 0; 0; 4; 4; 4; 0; 0; 0].
Proof.
  split; [prove_valid|].
  destruct (priors_selectable_not_maskable lwr3 {["priors"; "slopes"]})
    as (_ & Hmask & _).
  rewrite Hmask by prove_valid. vm_compute. reflexivity.
Defined.

(** *** Requests that the code does not honour *)

Section Refusals.
Context {D : Type} `{Arith D, Libm D, Atan2 D}.
Implicit Types m : ModelParametersUnified D.

Lemma setParameterVectorAll_too_short_or_long (values : VectorXd D) m :
  length values <> getParameterVectorAllSize m ->
  setParameterVectorAll values m =
    (Returned tt, m, [Cerr ": values is of wrong size."]).
Proof.
  intros Hlen.
  unfold setParameterVectorAll, setParameterVectorAll_run, mbind, M_bind, get.
  unfold getParameterVectorAllSize in Hlen.
  destruct (Nat.eqb_spec (all_values_vector_size_ m) (length values)) as [E|E];
    [congruence|].
  reflexivity.
Qed.

(** Claim C2, as amended. Given a vector whose length is not
    [getParameterVectorAllSize()], [setParameterVectorAll] writes the
    line "values is of wrong size." to [cerr] and returns as any other
    call does; it raises nothing, calls [clearCache] not once, and
    leaves every member as it was, the parameter groups, the flags and
    the cache included. *)
Theorem setParameterVectorAll_wrong_size (values : VectorXd D) m :
  length values <> getParameterVectorAllSize m ->
  let run := setParameterVectorAll values m in
  result_of run = Returned tt /\
  (forall e, result_of run <> Raised e) /\
  trace_of run = [Cerr ": values is of wrong size."] /\
  state_of run = m.
Proof.
  intros Hlen run. unfold run.
  rewrite (setParameterVectorAll_too_short_or_long values m Hlen).
  split; [reflexivity|]. split; [intros e; discriminate|]. split; reflexivity.
Qed.

(** Claim C8, as amended. [set_slopes_as_angles], whatever its argument,
    writes the line "Not implemented yet!!!" to [cerr], leaves
    [slopes_as_angles_] false and every other member as it was, and
    returns as any other call does: it raises nothing. *)
Theorem set_slopes_as_angles_logs_and_resets (slopes_as_angles : bool) m :
  let run := set_slopes_as_angles slopes_as_angles m in
  result_of run = Returned tt /\
  (forall e, result_of run <> Raised e) /\
  trace_of run = [Cerr ":Not implemented yet!!!"] /\
  slopes_as_angles_ (state_of run) = false /\
  state_of run = set_angles_flag false m.
Proof.
  intros run. split; [reflexivity|]. split; [intros e; discriminate|].
  repeat split.
Qed.

End Refusals.

(** Claim C2 fails as stated: a vector of one coefficient, given to the
    running example whose full vector has fifteen, is logged on [cerr]
    and ignored; the call returns and no [SizeMismatch] is raised. *)
Lemma setParameterVectorAll_wrong_size_not_an_error :
  (length [1%R] <> getParameterVectorAllSize lwr3) /\
  (result_of (setParameterVectorAll [1%R] lwr3) = Returned tt) /\
  (result_of (setParameterVectorAll [1%R] lwr3) <> Raised SizeMismatch) /\
  (trace_of (setParameterVectorAll [1%R] lwr3)
    = [Cerr ": values is of wrong size."]).
Proof. repeat split; try reflexivity; discriminate. Qed.

(** A vector of one coefficient leaves the running example as it is. *)
Lemma setParameterVectorAll_wrong_size_witness :
  (length [1%R] <> getParameterVectorAllSize lwr3) /\
  (state_of (setParameterVectorAll [1%R] lwr3) = lwr3).
Proof.
  split; [simpl; lia|].
  apply (setParameterVectorAll_wrong_size [1%R] lwr3). simpl. lia.
Defined.

(** Claim C8 fails as stated: on the running example
    [set_slopes_as_angles(true)] returns, raises no
    [UnsupportedOperation], and leaves the flag false, with one line on
    [cerr] as the only sign of it. *)
Lemma set_slopes_as_angles_true_not_rejected :
  (result_of (set_slopes_as_angles true lwr3) = Returned tt) /\
  (result_of (set_slopes_as_angles true lwr3) <> Raised UnsupportedOperation) /\
  (slopes_as_angles_ (state_of (set_slopes_as_angles true lwr3)) = false) /\
  (trace_of (set_slopes_as_angles true lwr3) = [Cerr ":Not implemented yet!!!"]).
Proof. repeat split; try reflexivity; discriminate. Qed.

(** *** Kernel activations *)

#[global] Instance R_SquareLaw : SquareLaw R.
Proof. intros x. simpl. ring. Qed.

#[global] Instance float_SquareLaw : SquareLaw float.
Proof. intros x. reflexivity. Qed.

Section KernelProperties.
Context {D : Type} `{Arith D, Libm D}.
Implicit Types centers widths inputs : MatrixXd D.

Lemma kernel_column_length centers widths inputs bb n l :
  length (fold_left (kernel_step centers widths inputs bb) l (replicate n d1)) = n.
Proof.
  rewrite <- (length_replicate n d1) at 2.
  generalize (replicate n d1) as column. intros column. revert column.
  induction l as [|d l IH]; intros column; simpl; [done|].
  rewrite IH. unfold kernel_step. apply length_imap.
Qed.

Lemma kernel_column_lookup centers widths inputs bb n k s :
  s < n ->
  fold_left (kernel_step centers widths inputs bb) (seq 0 k) (replicate n d1) !! s
  = Some (product_upto k (fun d =>
            gauss_factor (coeff inputs s d) (coeff centers bb d) (coeff widths bb d))).
Proof.
  intros Hs. induction k as [|k IH].
  - simpl. by apply lookup_replicate_2.
  - rewrite seq_S, fold_left_app. simpl.
    unfold kernel_step at 1. rewrite list_lookup_imap, IH. reflexivity.
Qed.

(** The matrix of unnormalised activations, entry by entry. *)
Lemma kernelActivations_unnormalized_coeff centers widths inputs s b :
  s < rows inputs -> b < rows centers ->
  coeff (kernelActivations_static centers widths inputs false) s b =
  product_upto (cols centers) (fun d =>
    gauss_factor (coeff inputs s d) (coeff centers b d) (coeff widths b d)).
Proof.
  intros Hs Hb. unfold kernelActivations_static, coeff at 1, col. cbn [andb columns].
  rewrite (nth_lookup_Some _ _ _
    (fold_left (kernel_step centers widths inputs b) (seq 0 (cols centers))
               (replicate (rows inputs) d1))).
  - by rewrite (nth_lookup_Some _ _ _ _ (kernel_column_lookup _ _ _ _ _ _ _ Hs)).
  - rewrite list_lookup_fmap, lookup_seq_lt by done. reflexivity.
Qed.

Lemma product_upto_ext (f g : nat -> D) n :
  (forall d, d < n -> f d = g d) -> product_upto n f = product_upto n g.
Proof.
  induction n as [|n IH]; intros Hfg; simpl; [done|].
  rewrite IH by (intros; apply Hfg; lia). by rewrite Hfg by lia.
Qed.

(** Claim C5. With normalisation off, the entry for sample [s] and basis
    function [b] of the matrix that [kernelActivations] computes is the
    product over the dimensions [d] of
    [exp(-0.5 (x[s,d] - center[b,d])^2 / width[b,d]^2)]. *)
Theorem kernelActivations_is_gaussian_product `{!SquareLaw D}
    centers widths inputs s b :
  s < rows inputs -> b < rows centers ->
  coeff (kernelActivations_static centers widths inputs false) s b =
  activation_formula centers widths inputs s b.
Proof.
  intros Hs Hb. rewrite kernelActivations_unnormalized_coeff by done.
  unfold activation_formula. apply product_upto_ext. intros d _.
  unfold gauss_factor. by rewrite dpow2_square.
Qed.

Lemma kernelActivations_shape centers widths inputs normalized :
  rows (kernelActivations_static centers widths inputs normalized) = rows inputs.
Proof.
  unfold kernelActivations_static.
  destruct normalized; cbn [andb]; [destruct (rows centers =? 1)|]; reflexivity.
Qed.

Lemma rowwise_sum_length (U : MatrixXd D) : length (rowwise_sum U) = rows U.
Proof. unfold rowwise_sum. by rewrite length_fmap, length_seq. Qed.

Lemma normalizing_sums_length (U : MatrixXd D) :
  length (normalizing_sums U) = rows U.
Proof.
  unfold normalizing_sums.
  destruct (existsb _ _); [rewrite length_fmap|]; apply rowwise_sum_length.
Qed.

Lemma coeff_cwise2 (f : D -> D -> D) (A B : MatrixXd D) s b u v :
  columns A !! b = Some u -> columns B !! b = Some v ->
  s < length u -> s < length v ->
  coeff (cwise2 f A B) s b = f (nth s u d0) (nth s v d0).
Proof.
  intros Hu Hv Hsu Hsv. unfold coeff, col, cwise2. cbn [columns].
  rewrite (nth_lookup_Some _ _ _ (zip_with f u v)).
  - destruct (lookup_lt_is_Some_2 u s Hsu) as [x Hx].
    destruct (lookup_lt_is_Some_2 v s Hsv) as [y Hy].
    rewrite (nth_lookup_Some _ _ _ (f x y)).
    + by rewrite (nth_lookup_Some _ _ _ _ Hx), (nth_lookup_Some _ _ _ _ Hy).
    + rewrite lookup_zip_with, Hx, Hy. reflexivity.
  - rewrite lookup_zip_with, Hu, Hv. reflexivity.
Qed.

(** Claim C4, as amended. With normalisation on: for a single basis
    function the result is the matrix of ones; otherwise the entry for
    sample [s] and basis function [b] is the unnormalised activation
    divided by the sum of row [s], after [max / 100000] has been added
    to every row sum if one of them compares equal to zero. (Nothing
    is said on whether the quotient is a number.) *)
Theorem kernelActivations_normalized centers widths inputs :
  let U := kernelActivations_static centers widths inputs false in
  let N := kernelActivations_static centers widths inputs true in
  (rows centers = 1 ->
   N = filled (rows inputs) 1 d1 /\
   forall s, s < rows inputs -> coeff N s 0 = d1) /\
  (rows centers <> 1 ->
   forall s b, s < rows inputs -> b < rows centers ->
   coeff N s b = (coeff U s b / nth s (normalizing_sums U) d0)%D).
Proof.
  intros U N. split.
  - intros H1. assert (HN : N = filled (rows inputs) 1 d1).
    { unfold N, kernelActivations_static. rewrite H1. reflexivity. }
    split; [exact HN|]. intros s Hs. rewrite HN. unfold coeff, col, filled.
    cbn. rewrite (nth_lookup_Some _ _ _ d1); [done|].
    by apply lookup_replicate_2.
  - intros Hne s b Hs Hb.
    assert (HN : N = cwise2 ddiv U (replicate_col (normalizing_sums U) (rows centers))).
    { unfold N, kernelActivations_static at 1. cbn [andb].
      destruct (Nat.eqb_spec (rows centers) 1) as [E|_]; [done|]. reflexivity. }
    set (colb := fold_left (kernel_step centers widths inputs b)
                   (seq 0 (cols centers)) (replicate (rows inputs) d1)).
    assert (HU : columns U !! b = Some colb).
    { unfold U, kernelActivations_static. cbn [andb columns].
      rewrite list_lookup_fmap, lookup_seq_lt by done. reflexivity. }
    assert (Hlen : length colb = rows inputs) by apply kernel_column_length.
    rewrite HN.
    rewrite (coeff_cwise2 ddiv _ _ s b colb (normalizing_sums U)).
    + unfold coeff, col. by rewrite (nth_lookup_Some _ _ _ _ HU).
    + exact HU.
    + unfold replicate_col. cbn [columns]. by apply lookup_replicate_2.
    + lia.
    + rewrite normalizing_sums_length. unfold U.
      rewrite kernelActivations_shape. lia.
Qed.

End KernelProperties.

(** The running example queried at 40: sample 0, basis function 1. *)
Lemma kernelActivations_is_gaussian_product_witness :
  coeff (kernelActivations_static (centers_ lwr3) (widths_ lwr3)
           (mkMatrix 1 [[40%R]]) false) 0 1
  = activation_formula (centers_ lwr3) (widths_ lwr3) (mkMatrix 1 [[40%R]]) 0 1.
Proof.
  apply (kernelActivations_is_gaussian_product (centers_ lwr3) (widths_ lwr3)
           (mkMatrix 1 [[40%R]]) 0 1); vm_compute; lia.
Defined.

(** The same query with normalisation on. *)
Lemma kernelActivations_normalized_witness :
  let U := kernelActivations_static (centers_ lwr3) (widths_ lwr3)
             (mkMatrix 1 [[40%R]]) false in
  coeff (kernelActivations_static (centers_ lwr3) (widths_ lwr3)
           (mkMatrix 1 [[40%R]]) true) 0 1
  = (coeff U 0 1 / nth 0 (normalizing_sums U) d0)%D.
Proof.
  apply (kernelActivations_normalized (centers_ lwr3) (widths_ lwr3)
           (mkMatrix 1 [[40%R]])); vm_compute; lia.
Defined.

(** *** Normalisation in binary64 *)

(** Whatever the C library's [exp] is, as long as it underflows to zero
    below -746 (the least positive binary64 is about [exp(-744.44)]) and
    [pow(., 2)] squares: for the far query both activations are zero,
    so is the only row sum and so is [max / 100000]; the normalised
    activation is 0 / 0. *)
Lemma normalized_activation_nan_any_libm (L : Libm float) :
  (forall y : float, PrimFloat.ltb y (-746)%float = true -> dexp y = 0%float) ->
  (forall x : float, dpow2 x = PrimFloat.mul x x) ->
  PrimFloat.is_nan
    (coeff (kernelActivations_static far_centers far_widths far_inputs true) 0 0)
  = true.
Proof.
  intros Hexp Hpow.
  unfold kernelActivations_static, far_centers, far_widths, far_inputs.
  cbn -[dexp dpow2 PrimFloat.is_nan PrimFloat.mul PrimFloat.div PrimFloat.sub
        PrimFloat.add PrimFloat.eqb PrimFloat.ltb].
  unfold gauss_factor. rewrite !Hpow.
  cbn -[dexp PrimFloat.is_nan PrimFloat.eqb].
  rewrite !Hexp by reflexivity.
  reflexivity.
Qed.

(** Claim C4 fails as stated. Two basis functions with strictly positive
    widths, normalisation on, one sample of the right dimension: the row
    sum is exactly zero, [max / 100000] is added, and the output entry is
    NaN. *)
Lemma normalized_activation_of_far_input_is_nan :
  (kernelActivations_assert far_centers far_widths far_inputs = true) /\
  (forallb (fun w => dgtb w d0) (col 0 far_widths) = true) /\
  (rows far_centers <> 1) /\
  (existsb (fun x => deqb x d0)
     (rowwise_sum (kernelActivations_static far_centers far_widths far_inputs false))
   = true) /\
  (PrimFloat.is_nan
     (coeff (kernelActivations_static far_centers far_widths far_inputs true) 0 0)
   = true).
Proof. repeat split; try (vm_compute; reflexivity). discriminate. Qed.

(** *** The two line representations *)

Section PivotProperties.
Context {D : Type} `{Arith D, Libm D, Atan2 D}.
Implicit Types m : ModelParametersUnified D.

Lemma zip_columns_replicate_row (f : D -> D -> D) (g : nat -> nat -> D)
    (v : list D) n :
  zip_with (zip_with f)
    ((fun b => (fun s => g b s) <$> seq 0 n) <$> seq 0 (length v))
    ((fun x => replicate n x) <$> v)
  = (fun b => (fun s => f (g b s) (nth b v d0)) <$> seq 0 n) <$> seq 0 (length v).
Proof.
  apply list_eq. intros b.
  rewrite lookup_zip_with, list_lookup_fmap, !lookup_tabulate.
  destruct (decide (b < length v)) as [Hb|Hb]; [|done].
  destruct (lookup_lt_is_Some_2 v b Hb) as [x Hx].
  rewrite Hx, (nth_lookup_Some _ _ _ _ Hx). cbn.
  by rewrite zip_with_tabulate_replicate.
Qed.

Lemma slopes_times_centers_length m :
  length (slopes_times_centers m) = n_basis m.
Proof. unfold slopes_times_centers. by rewrite length_fmap, length_seq. Qed.

Lemma slopes_times_centers_nth m b :
  b < n_basis m ->
  nth b (slopes_times_centers m) d0
  = dot (row b (slopes_ m)) (row b (centers_ m)).
Proof.
  intros Hb. apply nth_lookup_Some. unfold slopes_times_centers.
  rewrite lookup_tabulate. by rewrite decide_True.
Qed.

(** [getLines], entry by entry. *)
Lemma getLines_tabulate m (inputs : MatrixXd D) :
  valid m ->
  getLines m inputs =
  mkMatrix (rows inputs)
    ((fun b => (fun s => line_value m inputs s b) <$> seq 0 (rows inputs))
       <$> seq 0 (n_basis m)).
Proof.
  intros Hv. destruct (valid_dims m Hv) as (_ & _ & Hs1 & _ & Ho & _).
  unfold getLines, cwise2, mul_transpose, replicate_row. cbn [rows columns].
  rewrite Hs1, <- Ho.
  rewrite (zip_columns_replicate_row dadd
             (fun b s => dot (row s inputs) (row b (slopes_ m)))).
  destruct (lines_pivot_at_max_activation_ m) eqn:Hp; cbn [rows columns].
  - rewrite Ho, <- (slopes_times_centers_length m) at 1.
    rewrite (zip_columns_replicate_row dsub
      (fun b s => (dot (row s inputs) (row b (slopes_ m)) + nth b (offsets_ m) d0)%D)).
    rewrite slopes_times_centers_length, ?Ho. f_equal.
    apply tabulate_ext. intros b Hb. apply tabulate_ext. intros s _.
    unfold line_value. rewrite Hp. by rewrite slopes_times_centers_nth.
  - f_equal. rewrite Ho.
    apply tabulate_ext. intros b Hb. apply tabulate_ext. intros s _.
    unfold line_value. by rewrite Hp.
Qed.

(** What the toggle does to the state. *)
Lemma set_lines_pivot_at_max_activation_run (flag : bool) m :
  set_lines_pivot_at_max_activation flag m =
  if Bool.eqb (lines_pivot_at_max_activation_ m) flag
  then (Returned tt, m, [])
  else (Returned tt,
        set_pivot_flag flag
          (set_offsets
             (zip_with (if flag then dadd else dsub) (offsets_ m)
                       (slopes_times_centers m)) m),
        []).
Proof.
  unfold set_lines_pivot_at_max_activation, mbind, M_bind, get.
  destruct (Bool.eqb _ _); [reflexivity|]. by destruct flag.
Qed.

Lemma zip_with_nth (f : D -> D -> D) (l k : list D) b :
  b < length l -> b < length k ->
  nth b (zip_with f l k) d0 = f (nth b l d0) (nth b k d0).
Proof.
  intros Hl Hk.
  destruct (lookup_lt_is_Some_2 l b Hl) as [x Hx].
  destruct (lookup_lt_is_Some_2 k b Hk) as [y Hy].
  rewrite (nth_lookup_Some _ _ _ _ Hx), (nth_lookup_Some _ _ _ _ Hy).
  apply nth_lookup_Some. by rewrite lookup_zip_with, Hx, Hy.
Qed.

Lemma valid_toggle (flag : bool) m :
  valid m -> valid (state_of (set_lines_pivot_at_max_activation flag m)).
Proof.
  intros Hv. rewrite set_lines_pivot_at_max_activation_run.
  destruct (Bool.eqb _ _); [exact Hv|].
  destruct (valid_dims m Hv) as (_ & _ & _ & _ & Ho & _).
  destruct Hv as [Hs Hc Hw Hsl Hsz Ha].
  assert (Hlen : length (zip_with (if flag then dadd else dsub) (offsets_ m)
                           (slopes_times_centers m)) = length (offsets_ m)).
  { rewrite length_zip_with, slopes_times_centers_length. lia. }
  split; cbn; try done.
  - unfold checkDimensions_assert in *. cbn. by rewrite Hlen.
  - by rewrite Hlen.
Qed.

Lemma sub_add_zip `{!ExactArith D} (l k : list D) :
  length l = length k -> zip_with dsub (zip_with dadd l k) k = l.
Proof.
  revert k. induction l as [|x l IH]; intros [|y k] Hlen; try done.
  cbn. rewrite dadd_sub_cancel. f_equal. apply IH. by injection Hlen.
Qed.

Lemma add_sub_zip `{!ExactArith D} (l k : list D) :
  length l = length k -> zip_with dadd (zip_with dsub l k) k = l.
Proof.
  revert k. induction l as [|x l IH]; intros [|y k] Hlen; try done.
  cbn. rewrite dsub_add_cancel. f_equal. apply IH. by injection Hlen.
Qed.

(** Claim C1, as amended. For a valid model and in any arithmetic,
    binary64 included, [set_lines_pivot_at_max_activation] does nothing
    when the flag it is given is the current one; when it is not, the
    flag is set and every offset becomes [offset + ac] (towards the
    pivot form) or [offset - ac] (towards the origin form), computed in
    that arithmetic, [ac] being the inner product of the line's slopes
    and its center; the value of line [b] at sample [s], which was
    [y + o] in the origin form and [(y + o) - ac] in the pivot form, is
    [(y + (o + ac)) - ac] after the change to the pivot form and
    [y + (o - ac)] after the change to the origin form, [y] being the
    inner product of the sample and the slopes and [o] the offset of
    before. In arithmetic without rounding, [getLines] returns
    the same matrix before and after the call, for every input matrix,
    and the call followed by the call that restores the flag gives back
    the offsets, from either form. *)
Theorem pivot_toggle_is_lossless (flag : bool) m (inputs : MatrixXd D) :
  valid m ->
  let m' := state_of (set_lines_pivot_at_max_activation flag m) in
  (flag = lines_pivot_at_max_activation_ m ->
   set_lines_pivot_at_max_activation flag m = (Returned tt, m, [])) /\
  (flag <> lines_pivot_at_max_activation_ m ->
   lines_pivot_at_max_activation_ m' = flag /\
   length (offsets_ m') = n_basis m /\
   forall b, b < n_basis m ->
     nth b (offsets_ m') d0 =
     let ac := dot (row b (slopes_ m)) (row b (centers_ m)) in
     if flag then (nth b (offsets_ m) d0 + ac)%D
     else (nth b (offsets_ m) d0 - ac)%D) /\
  (flag <> lines_pivot_at_max_activation_ m ->
   forall s b, s < rows inputs -> b < n_basis m ->
     let y := dot (row s inputs) (row b (slopes_ m)) in
     let o := nth b (offsets_ m) d0 in
     let ac := dot (row b (slopes_ m)) (row b (centers_ m)) in
     coeff (getLines m inputs) s b
     = (if flag then (y + o)%D else ((y + o) - ac)%D) /\
     coeff (getLines m' inputs) s b
     = (if flag then ((y + (o + ac)) - ac)%D else (y + (o - ac))%D)) /\
  (ExactArith D ->
   getLines m' inputs = getLines m inputs /\
   offsets_ (state_of (set_lines_pivot_at_max_activation
                         (lines_pivot_at_max_activation_ m) m'))
   = offsets_ m).
Proof.
  intros Hv m'.
  destruct (valid_dims m Hv) as (_ & _ & _ & _ & Ho & _).
  pose proof (slopes_times_centers_length m) as Hac.
  assert (Hchange : flag <> lines_pivot_at_max_activation_ m ->
    m' = set_pivot_flag flag
           (set_offsets (zip_with (if flag then dadd else dsub) (offsets_ m)
                                  (slopes_times_centers m)) m)).
  { intros Hne. unfold m'. rewrite set_lines_pivot_at_max_activation_run.
    destruct (lines_pivot_at_max_activation_ m), flag; cbn; congruence. }
  assert (Hsame : flag = lines_pivot_at_max_activation_ m -> m' = m).
  { intros ->. unfold m'. rewrite set_lines_pivot_at_max_activation_run.
    by rewrite Bool.eqb_reflx. }
  assert (Hoff : flag <> lines_pivot_at_max_activation_ m ->
    forall b, b < n_basis m ->
      nth b (offsets_ m') d0 =
      if flag
      then (nth b (offsets_ m) d0 + dot (row b (slopes_ m)) (row b (centers_ m)))%D
      else (nth b (offsets_ m) d0 - dot (row b (slopes_ m)) (row b (centers_ m)))%D).
  { intros Hne b Hb. rewrite (Hchange Hne). cbn.
    rewrite zip_with_nth, slopes_times_centers_nth by lia. by destruct flag. }
  assert (Hentry : forall m0, valid m0 -> forall s b,
            s < rows inputs -> b < n_basis m0 ->
            coeff (getLines m0 inputs) s b = line_value m0 inputs s b).
  { intros m0 Hv0 s b Hs Hb. rewrite getLines_tabulate by done.
    unfold coeff, col. cbn [columns].
    rewrite (nth_lookup_Some _ _ _
               ((fun s => line_value m0 inputs s b) <$> seq 0 (rows inputs)))
      by (rewrite lookup_tabulate; by rewrite decide_True).
    apply nth_lookup_Some. rewrite lookup_tabulate. by rewrite decide_True. }
  split; [|split; [|split]].
  - intros ->. rewrite set_lines_pivot_at_max_activation_run.
    by rewrite Bool.eqb_reflx.
  - intros Hne. split; [by rewrite (Hchange Hne)|]. split; [|exact (Hoff Hne)].
    rewrite (Hchange Hne). cbn. rewrite length_zip_with. lia.
  - intros Hne s b Hs Hb y o ac.
    assert (Hv' : valid m') by (by apply valid_toggle).
    assert (Hn : n_basis m' = n_basis m) by (by rewrite (Hchange Hne)).
    rewrite (Hentry m Hv s b Hs Hb), (Hentry m' Hv' s b Hs) by (by rewrite Hn).
    unfold line_value. rewrite (Hoff Hne b Hb). rewrite (Hchange Hne). cbn.
    fold y o ac. by destruct flag, (lines_pivot_at_max_activation_ m).
  - intros Hexact.
    destruct (bool_decide (flag = lines_pivot_at_max_activation_ m)) eqn:Hd.
    + apply bool_decide_eq_true in Hd. rewrite (Hsame Hd). split; [done|].
      rewrite set_lines_pivot_at_max_activation_run.
      by rewrite Bool.eqb_reflx.
    + apply bool_decide_eq_false in Hd. split.
      * rewrite !getLines_tabulate by (try apply valid_toggle; done).
        assert (Hn : n_basis m' = n_basis m) by (by rewrite (Hchange Hd)).
        rewrite Hn. f_equal.
        apply tabulate_ext. intros b Hb. apply tabulate_ext. intros s _.
        unfold line_value. rewrite (Hoff Hd b Hb).
        rewrite (Hchange Hd). cbn.
        destruct flag, (lines_pivot_at_max_activation_ m); try done.
        -- by rewrite dadd_assoc, dadd_sub_cancel.
        -- by rewrite dadd_sub_assoc.
      * rewrite (Hchange Hd), set_lines_pivot_at_max_activation_run.
        cbn [lines_pivot_at_max_activation_ set_pivot_flag set_offsets].
        destruct flag, (lines_pivot_at_max_activation_ m) eqn:Hp; try done;
          cbn [Bool.eqb state_of fst snd offsets_ set_pivot_flag set_offsets].
        -- change (slopes_times_centers (set_pivot_flag true (set_offsets
                     (zip_with dadd (offsets_ m) (slopes_times_centers m)) m)))
             with (slopes_times_centers m).
           apply sub_add_zip. lia.
        -- change (slopes_times_centers (set_pivot_flag false (set_offsets
                     (zip_with dsub (offsets_ m) (slopes_times_centers m)) m)))
             with (slopes_times_centers m).
           apply add_sub_zip. lia.
Qed.

End PivotProperties.

(** The scenario of the design document: the lines of the running
    example at 40, before and after the toggle to the pivot form. *)
Lemma pivot_toggle_is_lossless_witness :
  valid lwr3 /\
  getLines (state_of (set_lines_pivot_at_max_activation true lwr3))
           (mkMatrix 1 [[40%R]])
  = getLines lwr3 (mkMatrix 1 [[40%R]]).
Proof.
  split; [prove_valid|].
  destruct (pivot_toggle_is_lossless true lwr3 (mkMatrix 1 [[40%R]]))
    as (_ & _ & _ & Hexact); [prove_valid|].
  exact (proj1 (Hexact R_ExactArith)).
Defined.

(** The claim as it stands fails twice. In binary64 the sum [0.1 + 2^55]
    is [2^55]: the toggle to the pivot form and back turns the offset
    0.1 into 0, and the line that is 40.1 ([0x1.40ccccccccccdp+5]) at
    the input 40 is 40 there after the toggle. And in any arithmetic, the toggle to [true] of a
    model that is in the pivot form already does nothing, so that the
    toggle to [false] after it changes the offsets and does not
    reproduce them. *)
Lemma pivot_toggle_loses_small_offsets :
  valid steep_model /\
  (offsets_ steep_model = [0x1.999999999999ap-4]%float) /\
  (offsets_ (state_of (set_lines_pivot_at_max_activation false
               (state_of (set_lines_pivot_at_max_activation true steep_model))))
   = [0]%float) /\
  (getLines steep_model (mkMatrix 1 [[40]%float])
   = mkMatrix 1 [[0x1.40ccccccccccdp+5]%float]) /\
  (getLines (state_of (set_lines_pivot_at_max_activation true steep_model))
            (mkMatrix 1 [[40]%float])
   = mkMatrix 1 [[40]%float]) /\
  valid lwr3_pivot /\
  (offsets_ (state_of (set_lines_pivot_at_max_activation false
               (state_of (set_lines_pivot_at_max_activation true lwr3_pivot))))
   <> offsets_ lwr3_pivot).
Proof.
  split; [prove_valid|]. split; [reflexivity|].
  split; [vm_compute; reflexivity|]. split; [vm_compute; reflexivity|].
  split; [vm_compute; reflexivity|]. split; [prove_valid|].
  intros Heq. injection Heq as Heq _ _. cbn in Heq. lra.
Qed.

(** *** The loops of [setParameterVectorAll] *)

Section ColumnLoop.
Context {D : Type} `{Arith D}.
Implicit Types m st : ModelParametersUnified D.

(** One of the three matrices, as a part of the state. *)
Variable getA : ModelParametersUnified D -> MatrixXd D.
Variable setA : MatrixXd D -> ModelParametersUnified D -> ModelParametersUnified D.
Hypothesis get_set : forall x m, getA (setA x m) = x.
Hypothesis set_get : forall m, setA (getA m) m = m.
Hypothesis set_set : forall x y m, setA x (setA y m) = setA x m.
Hypothesis get_cache : forall a b m, getA (set_cache a b m) = getA m.
Hypothesis set_cache_comm :
  forall x a b m, set_cache a b (setA x m) = setA x (set_cache a b m).

(** The body of the loop over its columns. *)
Variable check : bool.
Variable values : VectorXd D.
Variable size : nat.
Variable body : nat -> nat -> M D nat.
Hypothesis body_run : forall i offset st,
  body i offset st =
  let differs :=
    check && negb (array_eq_all (col i (getA st)) (segment offset size values)) in
  let st1 := if differs then set_cache empty_matrix empty_matrix st else st in
  (Returned (offset + size),
   setA (set_col i (segment offset size values) (getA st1)) st1,
   if differs then [ClearCache] else []).

Lemma changed_columns_S (A : MatrixXd D) base k :
  changed_columns check values A base size (S k) =
  changed_columns check values A base size k ++
  (if check && negb (array_eq_all (col k A) (segment (base + k * size) size values))
   then [k] else []).
Proof.
  unfold changed_columns. rewrite seq_S, List.filter_app. cbn [List.filter Nat.add].
  by destruct (check && _).
Qed.

Lemma partly_replaced_col (new old : list (list D)) k :
  length new = length old -> k <= length old ->
  nth k (take k new ++ drop k old) [] = nth k old [].
Proof.
  intros Hlen Hk. rewrite !nth_lookup. f_equal.
  rewrite lookup_app_r by (rewrite length_take; lia).
  rewrite length_take, lookup_drop. f_equal. lia.
Qed.

Lemma partly_replaced_insert (new old : list (list D)) k x :
  length new = length old -> k < length old -> new !! k = Some x ->
  <[k := x]> (take k new ++ drop k old) = take (S k) new ++ drop (S k) old.
Proof.
  intros Hlen Hk Hx.
  assert (Hk' : length (take k new) = k) by (rewrite length_take; lia).
  rewrite <- Hk' at 1. rewrite <- (Nat.add_0_r (length (take k new))).
  rewrite insert_app_r.
  destruct (lookup_lt_is_Some_2 old k Hk) as [y Hy].
  rewrite (drop_S _ _ _ Hy). cbn.
  rewrite (take_S_r _ _ _ Hx). by rewrite <- (assoc_L (++)).
Qed.

Lemma column_loop m base k :
  k <= cols (getA m) ->
  for_loop k body base m =
  (Returned (base + k * size),
   setA (mkMatrix (rows (getA m))
           (take k (new_columns values base size (cols (getA m)))
            ++ drop k (columns (getA m))))
        (match changed_columns check values (getA m) base size k with
         | [] => m
         | _ => set_cache empty_matrix empty_matrix m
         end),
   (fun _ => ClearCache) <$> changed_columns check values (getA m) base size k).
Proof.
  induction k as [|k IH]; intros Hk.
  - unfold for_loop, changed_columns.
    cbn [seq for_each List.filter fmap list_fmap].
    unfold mret, M_ret. rewrite take_0, drop_0. cbn [app].
    replace (base + 0 * size) with base by lia.
    replace (mkMatrix (rows (getA m)) (columns (getA m))) with (getA m)
      by (by destruct (getA m)).
    by rewrite set_get.
  - rewrite (for_loop_S _ _ _ _ _ _ _ (IH ltac:(lia))).
    rewrite body_run. cbv zeta.
    set (new := new_columns values base size (cols (getA m))).
    set (old := columns (getA m)).
    assert (Hnew : length new = length old).
    { unfold new, new_columns, old, cols. by rewrite length_fmap, length_seq. }
    assert (Hk' : k < length old) by (unfold old; unfold cols in Hk; lia).
    assert (Hseg : new !! k = Some (segment (base + k * size) size values)).
    { unfold new, new_columns. rewrite lookup_tabulate.
      rewrite decide_True; [done|]. exact Hk'. }
    assert (Hcol : forall st',
      col k (getA (setA (mkMatrix (rows (getA m)) (take k new ++ drop k old)) st'))
      = col k (getA m)).
    { intros st'. rewrite get_set. unfold col. cbn [columns].
      apply partly_replaced_col; [done|]. apply Nat.lt_le_incl, Hk'. }
    rewrite Hcol, changed_columns_S.
    set (differs := check && negb (array_eq_all (col k (getA m))
                                     (segment (base + k * size) size values))).
    set (ch := changed_columns check values (getA m) base size k).
    assert (Hst : forall st',
      setA (set_col k (segment (base + k * size) size values)
              (getA (setA (mkMatrix (rows (getA m)) (take k new ++ drop k old)) st')))
           (setA (mkMatrix (rows (getA m)) (take k new ++ drop k old)) st')
      = setA (mkMatrix (rows (getA m)) (take (S k) new ++ drop (S k) old)) st').
    { intros st'. rewrite get_set, set_set. unfold set_col. cbn [rows columns].
      by rewrite (partly_replaced_insert _ _ _ _ Hnew Hk' Hseg). }
    f_equal; [f_equal; [f_equal; lia|]|].
    + destruct differs.
      * rewrite set_cache_comm, Hst. f_equal. by destruct ch.
      * rewrite Hst. f_equal. rewrite (right_id_L [] (++)). done.
    + rewrite fmap_app. by destruct differs.
Qed.

End ColumnLoop.

Section SetAllBigStep.
Context {D : Type} `{Arith D, Libm D, Atan2 D}.
Implicit Types m st : ModelParametersUnified D.

Lemma changed_columns_unchecked (values : VectorXd D) (A : MatrixXd D) base size k :
  changed_columns false values A base size k = [].
Proof.
  unfold changed_columns. cbn [andb].
  induction (seq 0 k) as [|i l IH]; [done|]. exact IH.
Qed.

Lemma replaced_columns (new old : list (list D)) k :
  length new = k -> length old = k -> take k new ++ drop k old = new.
Proof.
  intros Hn Ho. rewrite take_ge, drop_ge by lia. apply (right_id_L [] (++)).
Qed.

Lemma new_columns_length (values : VectorXd D) base size d :
  length (new_columns values base size d) = d.
Proof. unfold new_columns. by rewrite length_fmap, length_seq. Qed.

Lemma centers_loop (values : VectorXd D) size m base :
  for_loop (cols (centers_ m)) (fun i_dim offset =>
      m ← get;
      (if negb (array_eq_all (col i_dim (centers_ m)) (segment offset size values))
       then clearCache else mret tt);;
      modify (fun m =>
        set_centers (set_col i_dim (segment offset size values) (centers_ m)) m);;
      mret (offset + size)) base m
  = (Returned (base + cols (centers_ m) * size),
     set_centers
       (mkMatrix (rows (centers_ m))
          (new_columns values base size (cols (centers_ m))))
       (match changed_columns true values (centers_ m) base size (cols (centers_ m)) with
        | [] => m
        | _ => set_cache empty_matrix empty_matrix m
        end),
     (fun _ => ClearCache)
       <$> changed_columns true values (centers_ m) base size (cols (centers_ m))).
Proof.
  rewrite (column_loop centers_ set_centers) with (check := true) (values := values)
    (size := size); try done.
  - by rewrite replaced_columns by (by rewrite ?new_columns_length).
  - by intros [].
  - intros i offset st. unfold mbind, M_bind, get, clearCache, modify, emit, mret, M_ret.
    cbn [andb]. by destruct (array_eq_all _ _).
Qed.

Lemma widths_loop (values : VectorXd D) size m base :
  for_loop (cols (widths_ m)) (fun i_dim offset =>
      m ← get;
      (if negb (array_eq_all (col i_dim (widths_ m)) (segment offset size values))
       then clearCache else mret tt);;
      modify (fun m =>
        set_widths (set_col i_dim (segment offset size values) (widths_ m)) m);;
      mret (offset + size)) base m
  = (Returned (base + cols (widths_ m) * size),
     set_widths
       (mkMatrix (rows (widths_ m))
          (new_columns values base size (cols (widths_ m))))
       (match changed_columns true values (widths_ m) base size (cols (widths_ m)) with
        | [] => m
        | _ => set_cache empty_matrix empty_matrix m
        end),
     (fun _ => ClearCache)
       <$> changed_columns true values (widths_ m) base size (cols (widths_ m))).
Proof.
  rewrite (column_loop widths_ set_widths) with (check := true) (values := values)
    (size := size); try done.
  - by rewrite replaced_columns by (by rewrite ?new_columns_length).
  - by intros [].
  - intros i offset st. unfold mbind, M_bind, get, clearCache, modify, emit, mret, M_ret.
    cbn [andb]. by destruct (array_eq_all _ _).
Qed.

Lemma slopes_loop (values : VectorXd D) size m base :
  for_loop (cols (slopes_ m)) (fun i_dim offset =>
      modify (fun m =>
        set_slopes (set_col i_dim (segment offset size values) (slopes_ m)) m);;
      mret (offset + size)) base m
  = (Returned (base + cols (slopes_ m) * size),
     set_slopes
       (mkMatrix (rows (slopes_ m))
          (new_columns values base size (cols (slopes_ m)))) m,
     []).
Proof.
  rewrite (column_loop slopes_ set_slopes) with (check := false) (values := values)
    (size := size); try done.
  - rewrite changed_columns_unchecked.
    by rewrite replaced_columns by (by rewrite ?new_columns_length).
  - by intros [].
Qed.

(** [setParameterVectorAll] on a vector of the right length, in one
    step: the three matrices and the offsets are read off [values], and
    [clearCache] is called once for every column of the centers and of
    the widths that does not compare equal to its replacement. *)
Lemma setParameterVectorAll_right_size (values : VectorXd D) m :
  cols (widths_ m) = cols (centers_ m) ->
  cols (slopes_ m) = cols (centers_ m) ->
  all_values_vector_size_ m = length values ->
  setParameterVectorAll values m =
  (Returned tt, after_setParameterVectorAll values m,
   (fun _ => ClearCache) <$> cache_clearing_columns values m).
Proof.
  intros Hw Hs Hlen.
  unfold setParameterVectorAll.
  cut (setParameterVectorAll_run values m =
       (Returned (cols (centers_ m) * rows (centers_ m)
                  + cols (centers_ m) * rows (centers_ m)
                  + rows (centers_ m) + cols (centers_ m) * rows (centers_ m)),
        after_setParameterVectorAll values m,
        (fun _ => ClearCache) <$> cache_clearing_columns values m)).
  { intros Hrun. rewrite (bind_run _ _ _ _ _ _ Hrun). unfold mret, M_ret.
    by rewrite (right_id_L [] (++)). }
  unfold setParameterVectorAll_run.
  rewrite (bind_run get _ m m m [] eq_refl).
  rewrite (proj2 (Nat.eqb_eq _ _) Hlen). cbn [negb app].
  set (size := rows (centers_ m)). set (n_dims := cols (centers_ m)).
  rewrite (bind_run _ _ _ _ _ _ (centers_loop values size m 0)).
  fold n_dims.
  set (ch1 := changed_columns true values (centers_ m) 0 size n_dims).
  set (st1 := set_centers _ _).
  assert (Hw1 : cols (widths_ st1) = n_dims) by (by destruct ch1).
  rewrite <- Hw1 at 1.
  rewrite (bind_run _ _ _ _ _ _ (widths_loop values size st1 (0 + n_dims * size))).
  rewrite Hw1.
  assert (Hch2 : changed_columns true values (widths_ st1) (0 + n_dims * size) size n_dims
                 = changed_columns true values (widths_ m) (n_dims * size) size n_dims)
    by (by destruct ch1).
  rewrite Hch2.
  set (ch2 := changed_columns true values (widths_ m) (n_dims * size) size n_dims).
  set (st2 := set_widths _ _).
  rewrite (bind_run (modify _) _ st2 tt
             (set_offsets (segment (0 + n_dims * size + n_dims * size) size values) st2)
             [] eq_refl).
  set (st3 := set_offsets _ st2).
  assert (Hs3 : cols (slopes_ st3) = n_dims) by (by destruct ch1, ch2).
  rewrite <- Hs3 at 1.
  rewrite (bind_run _ _ _ _ _ _
             (slopes_loop values size st3 (0 + n_dims * size + n_dims * size + size))).
  rewrite Hs3. unfold mret, M_ret. cbn [app].
  rewrite !(right_id_L [] (++)).
  unfold cache_clearing_columns. fold size n_dims ch1 ch2. rewrite fmap_app.
  f_equal. f_equal.
  unfold after_setParameterVectorAll, cache_clearing_columns.
  fold size n_dims ch1 ch2. cbn [Nat.add].
  unfold st3, st2, st1. by destruct ch1, ch2.
Qed.

End SetAllBigStep.

(** *** The flat vector, segment by segment *)

Section FlatVector.
Context {D : Type} `{Arith D, Libm D, Atan2 D}.
Implicit Types m : ModelParametersUnified D.

Lemma fmap_self {A} (l : list A) : (fun c => c) <$> l = l.
Proof. induction l as [|x l IH]; [done|]. cbn. by rewrite IH. Qed.

Lemma concat_uniform_length (l : list (list D)) r :
  Forall (fun c => length c = r) l -> length (concat l) = length l * r.
Proof.
  induction 1 as [|c l Hc _ IH]; [done|].
  cbn. rewrite length_app, IH, Hc. lia.
Qed.

Lemma segment_concat (cs : list (list D)) r i c (pre post : list D) base :
  Forall (fun c => length c = r) cs -> cs !! i = Some c -> length pre = base ->
  segment (base + i * r) r (pre ++ concat cs ++ post) = c.
Proof.
  intros Hwf Hc Hpre.
  rewrite <- (take_drop_middle cs i c Hc), concat_app. cbn [concat].
  rewrite <- !(assoc_L (++)), (assoc_L (++) pre).
  assert (Hr : length c = r) by exact (proj1 (Forall_lookup _ _) Hwf i c Hc).
  rewrite <- Hr at 2. apply segment_app.
  rewrite length_app, (concat_uniform_length _ r) by (by apply Forall_take).
  rewrite length_take_le by (apply Nat.lt_le_incl; by eapply lookup_lt_Some).
  lia.
Qed.

Lemma write_columns_prefix (f : list D -> list D) (A : MatrixXd D)
    (pre rest : list D) k :
  wf_matrix A -> (forall c, length (f c) = length c) ->
  k <= cols A -> cols A * rows A <= length rest ->
  fold_left (fun (vo : list D * nat) i_dim =>
               (set_segment vo.2 (f (col i_dim A)) vo.1, vo.2 + rows A))
            (seq 0 k) (pre ++ rest, length pre)
  = (pre ++ concat (f <$> take k (columns A)) ++ drop (k * rows A) rest,
     length pre + k * rows A).
Proof.
  intros Hwf Hf Hk Hrest. induction k as [|k IH].
  - cbn. by rewrite Nat.add_0_r.
  - rewrite seq_S, fold_left_app, IH by lia. cbn [fold_left fst snd Nat.add].
    destruct (lookup_lt_is_Some_2 (columns A) k ltac:(unfold cols in Hk; lia))
      as [c Hc].
    assert (Hr : length c = rows A) by exact (proj1 (Forall_lookup _ _) Hwf k c Hc).
    assert (Hle : S k * rows A <= length rest).
    { etrans; [|exact Hrest]. apply Nat.mul_le_mono_r. lia. }
    unfold col. rewrite (nth_lookup_Some _ _ _ _ Hc).
    rewrite (take_S_r _ _ _ Hc), fmap_app, concat_app. cbn [fmap list_fmap concat].
    rewrite (right_id_L [] (++) (f c)).
    assert (Hsplit : drop (k * rows A) rest =
              take (rows A) (drop (k * rows A) rest) ++ drop (S k * rows A) rest).
    { rewrite <- (take_drop (rows A) (drop (k * rows A) rest)) at 1.
      f_equal. rewrite drop_drop. f_equal. lia. }
    rewrite Hsplit at 1.
    rewrite (assoc_L (++) pre (concat _)).
    rewrite set_segment_app.
    + f_equal; [|lia]. by rewrite <- !(assoc_L (++)).
    + rewrite length_app, (concat_uniform_length _ (rows A)).
      * rewrite length_fmap, length_take_le; [lia|].
        unfold cols in Hk. lia.
      * apply Forall_fmap, Forall_take. eapply Forall_impl; [exact Hwf|].
        intros c' Hc'. cbn. by rewrite Hf.
    + rewrite Hf, Hr, length_take, length_drop. cbn in Hle. lia.
Qed.

Lemma write_columns_concat (f : list D -> list D) (A : MatrixXd D)
    (pre rest : list D) off :
  wf_matrix A -> (forall c, length (f c) = length c) ->
  off = length pre -> cols A * rows A <= length rest ->
  write_columns f A (pre ++ rest, off)
  = (pre ++ concat (f <$> columns A) ++ drop (cols A * rows A) rest,
     off + cols A * rows A).
Proof.
  intros Hwf Hf -> Hrest. unfold write_columns.
  rewrite (write_columns_prefix f A pre rest (cols A)) by done.
  unfold cols. by rewrite firstn_all.
Qed.

(** The vector that [getParameterVectorAll] returns: the columns of the
    centers, those of the widths, the offsets, the columns of the
    slopes, and what the last [n_basis] coefficients of the output
    parameter happened to hold. *)
Lemma getParameterVectorAll_concat m (values : VectorXd D) :
  valid m -> length values = getParameterVectorAllSize m ->
  getParameterVectorAll m values =
  concat (columns (centers_ m)) ++ concat (columns (widths_ m)) ++ offsets_ m
  ++ concat (columns (slopes_ m))
  ++ drop (n_basis m * n_dims m + n_basis m * n_dims m + n_basis m
           + n_basis m * n_dims m) values.
Proof.
  intros Hv Hlen.
  destruct (valid_dims m Hv) as (Hw1 & Hw2 & Hs1 & Hs2 & Ho & Hp).
  rewrite (valid_all_size m Hv) in Hlen.
  pose proof (valid_centers m Hv) as HC. pose proof (valid_widths m Hv) as HW.
  pose proof (valid_slopes m Hv) as HS.
  assert (HlC : length (concat (columns (centers_ m))) = n_dims m * n_basis m)
    by (by rewrite (concat_uniform_length _ (rows (centers_ m)))).
  assert (HlW : length (concat (columns (widths_ m))) = n_dims m * n_basis m).
  { rewrite (concat_uniform_length _ (rows (widths_ m))) by done.
    fold (cols (widths_ m)). by rewrite Hw1, Hw2. }
  unfold getParameterVectorAll, getParameterVectorAll_run.
  rewrite (valid_angles m Hv).
  rewrite (write_columns_concat _ (centers_ m) [] values 0) by
    (try done; fold (n_basis m) (n_dims m); lia).
  cbn [app fst snd Nat.add]. rewrite fmap_self.
  fold (n_basis m) (n_dims m).
  rewrite (write_columns_concat _ (widths_ m) (concat (columns (centers_ m)))
             (drop (n_dims m * n_basis m) values) (n_dims m * n_basis m))
    by (try done; rewrite ?Hw1, ?Hw2, ?length_drop; lia).
  cbn [fst snd]. rewrite fmap_self, Hw1, Hw2, drop_drop.
  rewrite <- (take_drop (n_basis m)
                (drop (n_dims m * n_basis m + n_dims m * n_basis m) values)),
    drop_drop.
  rewrite (assoc_L (++) (concat (columns (centers_ m)))).
  rewrite set_segment_app
    by (rewrite ?length_app, ?length_take, ?length_drop, ?HlC, ?HlW, ?Ho; lia).
  rewrite (assoc_L (++) (concat (columns (centers_ m)) ++ concat (columns (widths_ m)))).
  rewrite (write_columns_concat _ (slopes_ m)
             ((concat (columns (centers_ m)) ++ concat (columns (widths_ m)))
              ++ offsets_ m)
             (drop (n_dims m * n_basis m + n_dims m * n_basis m + n_basis m) values)
             (n_dims m * n_basis m + n_dims m * n_basis m + length (offsets_ m)))
    by (try done; rewrite ?length_app, ?Hs1, ?Hs2, ?length_drop, ?HlC, ?HlW, ?Ho; lia).
  cbn [fst]. rewrite fmap_self, Hs1, Hs2, drop_drop.
  rewrite <- !(assoc_L (++)). do 4 f_equal. f_equal. lia.
Qed.

End FlatVector.

(** *** Writing back the vector that was read *)

Section RoundTrip.
Context {D : Type} `{Arith D, Libm D, Atan2 D}.
Implicit Types m : ModelParametersUnified D.

Lemma array_eq_all_refl (c : list D) :
  Forall (fun x => deqb x x = true) c -> array_eq_all c c = true.
Proof.
  unfold array_eq_all. induction 1 as [|x c Hx _ IH]; [done|].
  cbn. by rewrite Hx, IH.
Qed.

Lemma filter_none {A} (p : A -> bool) (l : list A) :
  (forall x, In x l -> p x = false) -> List.filter p l = [].
Proof.
  induction l as [|x l IH]; intros Hp; [done|]. cbn.
  rewrite (Hp x) by (by left). apply IH. intros y Hy. apply Hp. by right.
Qed.

Lemma changed_columns_nil (values : VectorXd D) (A : MatrixXd D) base size k :
  (forall i, i < k ->
     array_eq_all (col i A) (segment (base + i * size) size values) = true) ->
  changed_columns true values A base size k = [].
Proof.
  intros Heq. unfold changed_columns. apply filter_none.
  intros i Hi. apply in_seq in Hi. cbn [andb]. rewrite Heq by lia. done.
Qed.

Lemma new_columns_eq (values : VectorXd D) (cs : list (list D)) base r :
  (forall i c, cs !! i = Some c -> segment (base + i * r) r values = c) ->
  new_columns values base r (length cs) = cs.
Proof.
  intros Hseg. apply list_eq. intros i. unfold new_columns.
  rewrite lookup_tabulate. destruct (decide (i < length cs)) as [Hi|Hi].
  - destruct (lookup_lt_is_Some_2 cs i Hi) as [c Hc]. rewrite Hc. f_equal. eauto.
  - symmetry. apply lookup_ge_None_2. lia.
Qed.

(** The segments of a vector that [getParameterVectorAll] returned. *)
Lemma getParameterVectorAll_segments m (values : VectorXd D) :
  valid m -> length values = getParameterVectorAllSize m ->
  let v := getParameterVectorAll m values in
  let r := rows (centers_ m) in
  let d := cols (centers_ m) in
  length v = getParameterVectorAllSize m /\
  (forall i c, columns (centers_ m) !! i = Some c ->
     segment (0 + i * r) r v = c) /\
  (forall i c, columns (widths_ m) !! i = Some c ->
     segment (d * r + i * r) r v = c) /\
  segment (d * r + d * r) r v = offsets_ m /\
  (forall i c, columns (slopes_ m) !! i = Some c ->
     segment (d * r + d * r + r + i * r) r v = c).
Proof.
  intros Hv Hlen v r d.
  destruct (valid_dims m Hv) as (Hw1 & Hw2 & Hs1 & Hs2 & Ho & Hp).
  pose proof (valid_centers m Hv) as HC. pose proof (valid_widths m Hv) as HW.
  pose proof (valid_slopes m Hv) as HS.
  pose proof (valid_all_size m Hv) as Hsz.
  unfold n_basis, n_dims in *. fold r d in Hw1, Hw2, Hs1, Hs2, Ho, Hp, Hsz.
  assert (HlC : length (concat (columns (centers_ m))) = d * r)
    by (by rewrite (concat_uniform_length _ (rows (centers_ m)))).
  assert (HlW : length (concat (columns (widths_ m))) = d * r).
  { rewrite (concat_uniform_length _ (rows (widths_ m))) by done.
    fold (cols (widths_ m)). by rewrite Hw1, Hw2. }
  assert (HlS : length (concat (columns (slopes_ m))) = d * r).
  { rewrite (concat_uniform_length _ (rows (slopes_ m))) by done.
    fold (cols (slopes_ m)). by rewrite Hs1, Hs2. }
  unfold v. rewrite (getParameterVectorAll_concat m values Hv Hlen).
  unfold n_basis, n_dims. fold r d. rewrite Hsz in *.
  split; [|split; [|split; [|split]]].
  - rewrite !length_app, HlC, HlW, HlS, Ho, length_drop. lia.
  - intros i c Hc. by apply (segment_concat _ r i c []).
  - intros i c Hc. apply (segment_concat _ r i c); [|done|done].
    by rewrite <- Hw1.
  - rewrite (assoc_L (++) (concat _) (concat _)). rewrite <- Ho at 3.
    apply segment_app. rewrite length_app. lia.
  - intros i c Hc.
    rewrite (assoc_L (++) (concat _) (concat _)),
      (assoc_L (++) (concat _ ++ concat _) (offsets_ m)).
    apply (segment_concat _ r i c); [by rewrite <- Hs1|done|].
    rewrite !length_app. lia.
Qed.

(** Writing back what was read changes nothing and clears nothing, for
    any arithmetic, as long as no center and no width differs from
    itself. *)
Lemma setParameterVectorAll_getParameterVectorAll m (values : VectorXd D) :
  valid m -> self_equal (centers_ m) -> self_equal (widths_ m) ->
  length values = getParameterVectorAllSize m ->
  setParameterVectorAll (getParameterVectorAll m values) m = (Returned tt, m, []).
Proof.
  intros Hv HeC HeW Hlen.
  destruct (valid_dims m Hv) as (Hw1 & Hw2 & Hs1 & Hs2 & Ho & Hp).
  destruct (getParameterVectorAll_segments m values Hv Hlen)
    as (Hl & HsC & HsW & HsO & HsS).
  set (v := getParameterVectorAll m values) in *.
  rewrite (setParameterVectorAll_right_size v m) by done.
  assert (Hch1 : changed_columns true v (centers_ m) 0 (rows (centers_ m))
                   (cols (centers_ m)) = []).
  { apply changed_columns_nil. intros i Hi.
    destruct (lookup_lt_is_Some_2 (columns (centers_ m)) i Hi) as [c Hc].
    unfold col. rewrite (nth_lookup_Some _ _ _ _ Hc), (HsC i c Hc).
    apply array_eq_all_refl. exact (proj1 (Forall_lookup _ _) HeC i c Hc). }
  assert (Hch2 : changed_columns true v (widths_ m)
                   (cols (centers_ m) * rows (centers_ m)) (rows (centers_ m))
                   (cols (centers_ m)) = []).
  { apply changed_columns_nil. intros i Hi.
    destruct (lookup_lt_is_Some_2 (columns (widths_ m)) i
                ltac:(fold (cols (widths_ m)); unfold n_dims in Hw2; lia)) as [c Hc].
    unfold col. rewrite (nth_lookup_Some _ _ _ _ Hc), (HsW i c Hc).
    apply array_eq_all_refl. exact (proj1 (Forall_lookup _ _) HeW i c Hc). }
  unfold after_setParameterVectorAll, cache_clearing_columns.
  rewrite Hch1, Hch2. cbn [app fmap list_fmap].
  rewrite HsO.
  unfold n_dims in Hw2, Hs2.
  pose proof (new_columns_eq v (columns (centers_ m)) _ _ HsC) as HnC.
  pose proof (new_columns_eq v (columns (widths_ m)) _ _ HsW) as HnW.
  pose proof (new_columns_eq v (columns (slopes_ m)) _ _ HsS) as HnS.
  change (length (columns (centers_ m))) with (cols (centers_ m)) in HnC.
  change (length (columns (widths_ m))) with (cols (widths_ m)) in HnW.
  change (length (columns (slopes_ m))) with (cols (slopes_ m)) in HnS.
  rewrite Hw2 in HnW. rewrite Hs2 in HnS. rewrite HnC, HnW, HnS.
  by destruct m as [[] [] [] ? ? ? ? ? ? ? ? ?].
Qed.

End RoundTrip.

(** *** The full vector read and written back *)

Section RoundTripClaim.
Context {D : Type} `{Arith D, Libm D, Atan2 D}.

Lemma self_equal_exact `{!ExactEq D} (A : MatrixXd D) : self_equal A.
Proof.
  unfold self_equal. apply Forall_forall. intros c _.
  apply Forall_forall. intros x _. by apply deqb_eq.
Qed.

(** The full vector of a valid model does not depend on what [atan2]
    is. *)
Lemma getParameterVectorAll_any_atan2 (A1 A2 : Atan2 D)
    (m : ModelParametersUnified D) (values : VectorXd D) :
  slopes_as_angles_ m = false ->
  @getParameterVectorAll D _ A1 m values = @getParameterVectorAll D _ A2 m values.
Proof.
  intros Ha. unfold getParameterVectorAll, getParameterVectorAll_run.
  by rewrite Ha.
Qed.

(** Claim C6, as amended. For a valid model none of whose centers and
    widths differs from itself (in binary64: none of them is NaN), and
    in any arithmetic, [setParameterVectorAll] applied to the vector
    that [getParameterVectorAll] returned gives back the same state,
    member by member: centers, widths, offsets, slopes, priors, flags
    and the activation cache; it returns as usual, writes nothing and
    calls [clearCache] not once. [values] is the output parameter of
    [getParameterVectorAll] right after its [resize]. *)
Theorem full_vector_round_trip (m : ModelParametersUnified D) (values : VectorXd D) :
  valid m -> self_equal (centers_ m) -> self_equal (widths_ m) ->
  length values = getParameterVectorAllSize m ->
  let run := setParameterVectorAll (getParameterVectorAll m values) m in
  result_of run = Returned tt /\
  state_of run = m /\
  trace_of run = [] /\
  ClearCache ∉ trace_of run.
Proof.
  intros Hv HC HW Hlen run.
  assert (Hrun : run = (Returned tt, m, [])).
  { by apply setParameterVectorAll_getParameterVectorAll. }
  rewrite Hrun. repeat split. apply not_elem_of_nil.
Qed.

End RoundTripClaim.

(** The running example, read into a vector of fifteen zeros and
    written back. *)
Lemma full_vector_round_trip_witness :
  valid lwr3 /\
  state_of (setParameterVectorAll
              (getParameterVectorAll lwr3 (replicate 15 0%R)) lwr3) = lwr3.
Proof.
  split; [prove_valid|].
  apply (full_vector_round_trip lwr3 (replicate 15 0%R));
    [prove_valid|apply self_equal_exact|apply self_equal_exact|reflexivity].
Defined.

(** The claim as it stands fails for a valid model in binary64 one of
    whose centers is NaN: the comparison of the first column of the
    centers with the segment that holds that very column is false,
    [clearCache] is called, and the memo of the query at 0.5 is gone
    after the round trip. *)
Lemma round_trip_of_nan_center_clears_cache :
  valid (state_of (kernelActivations (mkMatrix 1 [[0.5]%float]) nan_model)) /\
  (inputs_cached_ (state_of (kernelActivations (mkMatrix 1 [[0.5]%float]) nan_model))
   = mkMatrix 1 [[0.5]%float]) /\
  (trace_of
     (setParameterVectorAll
        (getParameterVectorAll
           (state_of (kernelActivations (mkMatrix 1 [[0.5]%float]) nan_model))
           (replicate 10 0%float))
        (state_of (kernelActivations (mkMatrix 1 [[0.5]%float]) nan_model)))
   = [ClearCache]) /\
  (inputs_cached_
     (state_of
        (setParameterVectorAll
           (getParameterVectorAll
              (state_of (kernelActivations (mkMatrix 1 [[0.5]%float]) nan_model))
              (replicate 10 0%float))
           (state_of (kernelActivations (mkMatrix 1 [[0.5]%float]) nan_model))))
   = empty_matrix).
Proof.
  split; [prove_valid|]. repeat split; vm_compute; reflexivity.
Qed.

(** *** The activation cache *)

Section CacheProperties.
Context {D : Type} `{Arith D, Libm D, Atan2 D}.
Implicit Types m : ModelParametersUnified D.

Lemma segment_length (values : VectorXd D) offset size :
  offset + size <= length values -> length (segment offset size values) = size.
Proof. intros Hle. unfold segment. rewrite length_take, length_drop. lia. Qed.

Lemma new_columns_wf (values : VectorXd D) base size d :
  base + d * size <= length values ->
  Forall (fun c => length c = size) (new_columns values base size d).
Proof.
  intros Hle. apply Forall_lookup. intros i c. unfold new_columns.
  rewrite lookup_tabulate. destruct (decide (i < d)) as [Hi|]; [|done].
  intros [= <-]. apply segment_length.
  assert (S i * size <= d * size) by (apply Nat.mul_le_mono_r; lia). lia.
Qed.

(** A write of the right length keeps the model valid. *)
Lemma valid_after_setParameterVectorAll (values : VectorXd D) m :
  valid m -> length values = getParameterVectorAllSize m ->
  valid (after_setParameterVectorAll values m).
Proof.
  intros Hv Hlen.
  destruct (valid_dims m Hv) as (Hw1 & Hw2 & Hs1 & Hs2 & Ho & Hp).
  pose proof (valid_all_size m Hv) as Hsz.
  destruct Hv as [Hsh HC HW HS Hsize Ha].
  unfold n_basis, n_dims in *. rewrite Hsz in Hlen.
  set (r := rows (centers_ m)) in *. set (d := cols (centers_ m)) in *.
  assert (Hdr : d * r = r * d) by lia.
  assert (HlO : length (segment (d * r + d * r) r values) = r)
    by (apply segment_length; lia).
  unfold after_setParameterVectorAll. fold r d.
  split; cbn [centers_ widths_ slopes_ offsets_ priors_ slopes_as_angles_
              all_values_vector_size_].
  - unfold checkDimensions_assert.
    cbn [centers_ widths_ slopes_ offsets_ priors_ rows].
    unfold cols. cbn [columns]. rewrite !new_columns_length, HlO, Hw1, Hs1, Hp.
    fold r. by rewrite !Nat.eqb_refl.
  - unfold wf_matrix. cbn [rows columns]. apply new_columns_wf. lia.
  - unfold wf_matrix. cbn [rows columns]. rewrite Hw1. apply new_columns_wf. lia.
  - unfold wf_matrix. cbn [rows columns]. rewrite Hs1. apply new_columns_wf. lia.
  - unfold cols. cbn [rows columns].
    rewrite !new_columns_length, HlO, Hw1, Hs1, Hp.
    unfold getParameterVectorAllSize in Hsz. rewrite Hsz. lia.
  - exact Ha.
Qed.

Section CacheExact.
Context `{!ExactEq D}.

Lemma array_eq_all_eq (a b : list D) :
  length a = length b -> array_eq_all a b = true -> a = b.
Proof.
  unfold array_eq_all. revert b.
  induction a as [|x a IH]; intros [|y b] Hlen Heq; try done.
  cbn in Heq. apply andb_prop in Heq as [Hxy Hab].
  apply deqb_eq in Hxy as ->. f_equal. apply IH; [by injection Hlen|done].
Qed.

Lemma matrix_eq_all_eq (A B : MatrixXd D) :
  wf_matrix A -> wf_matrix B -> rows A = rows B -> cols A = cols B ->
  matrix_eq_all A B = true -> A = B.
Proof.
  destruct A as [rA cA], B as [rB cB]. unfold wf_matrix, cols, matrix_eq_all.
  cbn. intros HA HB <- Hc Heq. f_equal.
  revert cB HB Hc Heq. induction HA as [|a cA Ha _ IH]; intros [|b cB] HB Hc Heq;
    try done.
  inversion HB as [|? ? Hb HB']; subst.
  cbn in Heq. apply andb_prop in Heq as [Hab Hrest].
  f_equal; [apply array_eq_all_eq; [congruence|done]|].
  apply IH; [done|by injection Hc|done].
Qed.

Lemma filter_nil_inv {A} (p : A -> bool) (l : list A) x :
  List.filter p l = [] -> In x l -> p x = false.
Proof.
  induction l as [|y l IH]; [done|]. cbn.
  destruct (p y) eqn:Hy; [done|]. intros Hnil [<-|Hx]; [done|by apply IH].
Qed.

(** A loop that cleared nothing wrote back the columns that were
    there. *)
Lemma unchanged_columns (values : VectorXd D) (A : MatrixXd D) base :
  wf_matrix A ->
  base + cols A * rows A <= length values ->
  changed_columns true values A base (rows A) (cols A) = [] ->
  new_columns values base (rows A) (cols A) = columns A.
Proof.
  intros Hwf Hle Hch. apply new_columns_eq. intros i c Hc.
  assert (Hi : i < cols A) by (by eapply lookup_lt_Some).
  pose proof (filter_nil_inv _ _ i Hch ltac:(apply in_seq; lia)) as Hp.
  cbn [andb] in Hp. apply negb_false_iff in Hp.
  unfold col in Hp. rewrite (nth_lookup_Some _ _ _ _ Hc) in Hp.
  symmetry. apply array_eq_all_eq; [|done].
  rewrite (proj1 (Forall_lookup _ _) Hwf i c Hc), segment_length; [done|].
  assert (S i * rows A <= cols A * rows A) by (apply Nat.mul_le_mono_r; lia). lia.
Qed.

(** A write keeps the model valid and the memo right. *)
Lemma write_keeps_cache_ok (values : VectorXd D) m :
  valid m -> cache_ok m ->
  valid (state_of (setParameterVectorAll values m)) /\
  cache_ok (state_of (setParameterVectorAll values m)).
Proof.
  intros Hv [Hwf Hok].
  destruct (decide (length values = getParameterVectorAllSize m)) as [Hlen|Hlen].
  - destruct (valid_dims m Hv) as (Hw1 & Hw2 & Hs1 & Hs2 & Ho & Hp).
    pose proof (valid_all_size m Hv) as Hsz.
    unfold n_basis, n_dims in *.
    rewrite (setParameterVectorAll_right_size values m) by done.
    split; [by apply valid_after_setParameterVectorAll|].
    unfold cache_ok, memo_empty, direct, after_setParameterVectorAll.
    cbn [state_of fst snd centers_ widths_ normalized_basis_functions_
         inputs_cached_ kernel_activations_cached_].
    unfold cache_clearing_columns.
    destruct (changed_columns true values (centers_ m) 0 _ _) as [|i1 l1] eqn:Hc1;
      cbn [app]; [|split; [by constructor|by left]].
    destruct (changed_columns true values (widths_ m) _ _ _) as [|i2 l2] eqn:Hc2;
      [|split; [by constructor|by left]].
    split; [done|].
    assert (HnC : new_columns values 0 (rows (centers_ m)) (cols (centers_ m))
                  = columns (centers_ m)).
    { apply unchanged_columns; [by apply valid_centers| |done].
      rewrite Hlen, Hsz. lia. }
    rewrite HnC.
    assert (HnW : new_columns values (cols (centers_ m) * rows (centers_ m))
                    (rows (centers_ m)) (cols (centers_ m)) = columns (widths_ m)).
    { pose proof (unchanged_columns values (widths_ m)
                    (cols (centers_ m) * rows (centers_ m))) as HU.
      rewrite Hw1, Hw2 in HU. apply HU; [by apply valid_widths| |done].
      rewrite Hlen, Hsz. lia. }
    rewrite HnW.
    replace (mkMatrix (rows (centers_ m)) (columns (centers_ m))) with (centers_ m)
      by (by destruct (centers_ m)).
    replace (mkMatrix (rows (widths_ m)) (columns (widths_ m))) with (widths_ m)
      by (by destruct (widths_ m)).
    exact Hok.
  - rewrite setParameterVectorAll_too_short_or_long by done. by split.
Qed.

(** A query with a matrix that is not 0 x 0 returns the activations
    computed afresh, changes nothing but the memo and leaves it right. *)
Lemma query_is_direct (inputs : MatrixXd D) m :
  cache_ok m -> wf_matrix inputs -> rows inputs <> 0 \/ cols inputs <> 0 ->
  exists m',
    kernelActivations inputs m = (Returned (direct m inputs), m', []) /\
    cache_ok m' /\
    (m' = m \/ m' = set_cache inputs (direct m inputs) m).
Proof.
  intros [Hwf Hok] Hin Hne.
  unfold kernelActivations, mbind, M_bind, get, modify, mret, M_ret.
  destruct (caching_ m) eqn:Hcaching; cbn [andb].
  - destruct (Nat.eqb_spec (rows inputs) (rows (inputs_cached_ m))) as [Hr|Hr];
      cbn [andb];
      [destruct (Nat.eqb_spec (cols inputs) (cols (inputs_cached_ m))) as [Hc|Hc];
       cbn [andb];
       [destruct (matrix_eq_all inputs (inputs_cached_ m)) eqn:Heq|]|].
    + pose proof (matrix_eq_all_eq _ _ Hin Hwf Hr Hc Heq) as Hsame.
      exists m. split; [|split; [done|by left]].
      destruct Hok as [[He _]|Hk].
      * rewrite <- Hsame in He. rewrite He in Hne. by destruct Hne.
      * by rewrite Hk, Hsame.
    + exists (set_cache inputs (direct m inputs) m).
      split; [done|]. split; [|by right]. split; [done|by right].
    + exists (set_cache inputs (direct m inputs) m).
      split; [done|]. split; [|by right]. split; [done|by right].
    + exists (set_cache inputs (direct m inputs) m).
      split; [done|]. split; [|by right]. split; [done|by right].
  - exists m. split; [done|]. split; [done|by left].
Qed.

Lemma valid_set_cache (inputs activations : MatrixXd D) m :
  valid m -> valid (set_cache inputs activations m).
Proof. intros [? ? ? ? ? ?]. by split. Qed.

(** The cache is transparent for every query whose matrix has a row or
    a column: over any sequence of writes and such queries, started in
    a valid model whose memo is empty or right, every query returns the
    matrix that the computation from the current centers and widths
    returns. *)
Theorem caching_is_transparent (ops : list (op D)) m :
  valid m -> cache_ok m -> Forall proper ops -> transparent ops m.
Proof.
  intros Hv Hok Hops. revert m Hv Hok.
  induction Hops as [|o ops Ho _ IH]; intros m Hv Hok; [done|].
  destruct o as [values|inputs]; cbn [transparent].
  - destruct (write_keeps_cache_ok values m Hv Hok) as [Hv' Hok'].
    by apply IH.
  - destruct Ho as [Hwf Hne].
    destruct (query_is_direct inputs m Hok Hwf Hne) as (m' & Hrun & Hok' & Hm').
    rewrite Hrun. split; [done|]. apply IH; [|done].
    destruct Hm' as [->| ->]; [done|by apply valid_set_cache].
Qed.

End CacheExact.

End CacheProperties.

(** A query, a write of fifteen ones and the same query again, on the
    running example. *)
Lemma caching_is_transparent_witness :
  transparent [Query (mkMatrix 1 [[40%R]]);
               Write (replicate 15 1%R);
               Query (mkMatrix 1 [[40%R]])] lwr3.
Proof.
  apply (caching_is_transparent _ lwr3).
  - prove_valid.
  - split; [constructor|left; by split].
  - repeat constructor; cbn; lia.
Defined.

(** *** An empty query against an empty memo *)

(** Claim C3 does not hold of the code at one point. The test "same
    shape, same coefficients" takes the empty memo of a fresh or just
    cleared cache for a hit when the query is a 0 x 0 matrix: the 0 x 0
    matrix of the memo is returned, where the computation from the two
    centers returns a 0 x 2 matrix. *)
Lemma empty_query_hits_empty_memo :
  valid lwr_no_dims /\
  (caching_ lwr_no_dims = true) /\
  (kernelActivations_assert (centers_ lwr_no_dims) (widths_ lwr_no_dims)
     empty_matrix = true) /\
  (result_of (kernelActivations empty_matrix lwr_no_dims)
   = Returned (mkMatrix 0 [])) /\
  (direct lwr_no_dims empty_matrix = mkMatrix 0 [[]; []]) /\
  (result_of (kernelActivations empty_matrix lwr_no_dims)
   <> Returned (direct lwr_no_dims empty_matrix)) /\
  ~ transparent [Query empty_matrix] lwr_no_dims.
Proof.
  split; [prove_valid|]. repeat split; try reflexivity.
  - discriminate.
  - intros [Hq _]. discriminate Hq.
Qed.

(** *** The class invariant *)

(** [valid] holds of every object that a constructor returns without an
    assertion of [checkDimensions] failing, and every member function
    keeps it; so does [clone]. *)

Section Invariant.
Context {D : Type} `{Arith D, Libm D, Atan2 D}.
Implicit Types m : ModelParametersUnified D.

Lemma construct_valid (centers widths slopes : MatrixXd D)
    (offsets priors : VectorXd D) (nbf pivot caching0 : bool) :
  wf_matrix centers -> wf_matrix widths -> wf_matrix slopes ->
  checkDimensions_assert
    (construct centers widths slopes offsets priors nbf pivot caching0) = true ->
  valid (construct centers widths slopes offsets priors nbf pivot caching0) /\
  memo_empty (construct centers widths slopes offsets priors nbf pivot caching0).
Proof. intros HC HW HS Hsh. by split; [split|split]. Qed.

Lemma valid_set_slopes_as_angles (slopes_as_angles : bool) m :
  valid m -> valid (state_of (set_slopes_as_angles slopes_as_angles m)).
Proof. intros [? ? ? ? ? ?]. by split. Qed.

Lemma valid_setParameterVectorAll (values : VectorXd D) m :
  valid m -> valid (state_of (setParameterVectorAll values m)).
Proof.
  intros Hv.
  destruct (decide (length values = getParameterVectorAllSize m)) as [Hlen|Hlen].
  - destruct (valid_dims m Hv) as (_ & Hw2 & _ & Hs2 & _ & _).
    rewrite (setParameterVectorAll_right_size values m) by done.
    by apply valid_after_setParameterVectorAll.
  - by rewrite setParameterVectorAll_too_short_or_long.
Qed.

Lemma valid_kernelActivations (inputs : MatrixXd D) m :
  valid m -> valid (state_of (kernelActivations inputs m)).
Proof.
  intros Hv. unfold kernelActivations, mbind, M_bind, get, modify, mret, M_ret.
  destruct (caching_ m); cbn [andb]; [|done].
  destruct (_ && _); [done|]. by apply valid_set_cache.
Qed.

Lemma valid_clone (caching0 : bool) m :
  valid m -> valid (clone caching0 m).
Proof.
  intros Hv. destruct (valid_dims m Hv) as (Hw1 & Hw2 & Hs1 & Hs2 & Ho & Hp).
  destruct Hv as [Hsh HC HW HS Hsz Ha].
  unfold clone, ModelParametersUnified_lines. rewrite construct_fields.
  split; cbn; try done.
  unfold checkDimensions_assert in *. cbn. unfold Ones.
  rewrite length_replicate, Nat.eqb_refl.
  repeat (apply andb_prop in Hsh; destruct Hsh as [Hsh ?]).
  repeat (apply andb_true_intro; split); done.
Qed.

End Invariant.

(** ** Further properties *)

(** *** Matrices by their entries *)

Section EntryFacts.
Context {D : Type} `{Arith D}.

Lemma list_of_entries (c : list D) :
  c = (fun s => nth s c d0) <$> seq 0 (length c).
Proof.
  apply list_eq. intros s. rewrite lookup_tabulate.
  destruct (decide (s < length c)) as [Hs|Hs].
  - destruct (lookup_lt_is_Some_2 c s Hs) as [x Hx].
    by rewrite Hx, (nth_lookup_Some _ _ _ _ Hx).
  - apply lookup_ge_None_2. lia.
Qed.

Lemma matrix_of_entries_eq (A : MatrixXd D) :
  wf_matrix A ->
  A = matrix_of_entries (rows A) (cols A) (fun b s => coeff A s b).
Proof.
  destruct A as [r cs]. unfold wf_matrix, matrix_of_entries, cols, coeff, col.
  cbn [rows columns]. intros Hwf. f_equal.
  apply list_eq. intros b. rewrite lookup_tabulate.
  destruct (decide (b < length cs)) as [Hb|Hb].
  - destruct (lookup_lt_is_Some_2 cs b Hb) as [c Hc].
    rewrite Hc, (nth_lookup_Some _ _ _ _ Hc). f_equal.
    rewrite <- (proj1 (Forall_lookup _ _) Hwf b c Hc). apply list_of_entries.
  - apply lookup_ge_None_2. lia.
Qed.

Lemma cwise2_entries (f : D -> D -> D) n nb (g h : nat -> nat -> D) :
  cwise2 f (matrix_of_entries n nb g) (matrix_of_entries n nb h)
  = matrix_of_entries n nb (fun b s => f (g b s) (h b s)).
Proof.
  unfold cwise2, matrix_of_entries. cbn [rows columns]. f_equal.
  apply list_eq. intros b. rewrite lookup_zip_with, !lookup_tabulate.
  destruct (decide (b < nb)); [|done]. cbn. f_equal.
  apply list_eq. intros s. rewrite lookup_zip_with, !lookup_tabulate.
  by destruct (decide (s < n)).
Qed.

Lemma coeff_entries n nb (g : nat -> nat -> D) s b :
  s < n -> b < nb -> coeff (matrix_of_entries n nb g) s b = g b s.
Proof.
  intros Hs Hb. unfold coeff, col, matrix_of_entries. cbn [columns].
  rewrite (nth_lookup_Some _ _ _ ((fun s => g b s) <$> seq 0 n)).
  - apply nth_lookup_Some. rewrite lookup_tabulate. by rewrite decide_True.
  - rewrite lookup_tabulate. by rewrite decide_True.
Qed.

Lemma row_entries n nb (g : nat -> nat -> D) s :
  s < n -> row s (matrix_of_entries n nb g) = (fun b => g b s) <$> seq 0 nb.
Proof.
  intros Hs. unfold row, matrix_of_entries. cbn [columns].
  rewrite <- list_fmap_compose. apply tabulate_ext. intros b Hb. cbn.
  apply nth_lookup_Some. rewrite lookup_tabulate. by rewrite decide_True.
Qed.

Lemma rowwise_sum_entries n nb (g : nat -> nat -> D) :
  rowwise_sum (matrix_of_entries n nb g)
  = (fun s => sum ((fun b => g b s) <$> seq 0 nb)) <$> seq 0 n.
Proof.
  unfold rowwise_sum. cbn [rows matrix_of_entries].
  apply tabulate_ext. intros s Hs. by rewrite row_entries.
Qed.

End EntryFacts.

(** *** The shape of the activations *)

Section ActivationShape.
Context {D : Type} `{Arith D, Libm D}.
Implicit Types centers widths inputs : MatrixXd D.

Lemma kernelActivations_static_cols centers widths inputs normalized :
  cols (kernelActivations_static centers widths inputs normalized) = rows centers.
Proof.
  unfold kernelActivations_static, cols, cwise2, replicate_col, filled.
  destruct normalized; cbn [andb]; [destruct (rows centers =? 1)|]; cbn [columns].
  - by rewrite length_replicate.
  - rewrite length_zip_with, length_fmap, length_seq, length_replicate. lia.
  - by rewrite length_fmap, length_seq.
Qed.

Lemma unnormalized_columns centers widths inputs :
  Forall (fun c => length c = rows inputs)
    (columns (kernelActivations_static centers widths inputs false)).
Proof.
  unfold kernelActivations_static. cbn [andb columns].
  apply Forall_fmap, Forall_forall. intros bb _. cbn.
  apply (kernel_column_length centers widths inputs).
Qed.

Lemma kernelActivations_static_normalized centers widths inputs :
  rows centers <> 1 ->
  kernelActivations_static centers widths inputs true =
  let U := kernelActivations_static centers widths inputs false in
  cwise2 ddiv U (replicate_col (normalizing_sums U) (rows centers)).
Proof.
  intros Hne. unfold kernelActivations_static at 1. cbn [andb].
  destruct (Nat.eqb_spec (rows centers) 1) as [E|_]; [done|]. reflexivity.
Qed.

Lemma kernelActivations_static_wf centers widths inputs normalized :
  wf_matrix (kernelActivations_static centers widths inputs normalized).
Proof.
  unfold wf_matrix. rewrite kernelActivations_shape.
  destruct normalized; [|apply unnormalized_columns].
  destruct (decide (rows centers = 1)) as [E|E].
  - unfold kernelActivations_static. rewrite E. cbn.
    repeat constructor. apply length_replicate.
  - rewrite kernelActivations_static_normalized by done.
    cbn [cwise2 replicate_col columns]. apply Forall_lookup. intros i c.
    rewrite lookup_zip_with.
    destruct (columns _ !! i) as [u|] eqn:Hu; [|done]. cbn.
    destruct (replicate _ _ !! i) as [v|] eqn:Hv; [|done]. cbn.
    intros [= <-]. apply lookup_replicate in Hv as [-> _].
    rewrite length_zip_with, normalizing_sums_length. cbn [rows].
    rewrite (proj1 (Forall_lookup _ _) (unnormalized_columns centers widths inputs) i u Hu).
    lia.
Qed.

(** For centers, widths and inputs that meet the assertions of the
    static [kernelActivations] (widths of the shape of the centers,
    inputs with one column for each dimension), the matrix that it
    leaves in its output parameter has one row for each row of [inputs]
    and one column for each row of [centers], in each of its three
    branches. *)
Theorem kernelActivations_static_shape centers widths inputs normalized :
  wf_matrix centers -> wf_matrix widths -> wf_matrix inputs ->
  kernelActivations_assert centers widths inputs = true ->
  let K := kernelActivations_static centers widths inputs normalized in
  rows K = rows inputs /\ cols K = rows centers /\ wf_matrix K.
Proof.
  intros _ _ _ _ K. split; [apply kernelActivations_shape|].
  split; [apply kernelActivations_static_cols|apply kernelActivations_static_wf].
Qed.

End ActivationShape.

(** The running example queried at 40 and at 45, with and without
    normalisation. *)
Lemma kernelActivations_static_shape_witness :
  cols (kernelActivations_static (centers_ lwr3) (widths_ lwr3)
          (mkMatrix 2 [[40; 45]%R]) true) = 3 /\
  wf_matrix (kernelActivations_static (centers_ lwr3) (widths_ lwr3)
               (mkMatrix 2 [[40; 45]%R]) false).
Proof.
  split.
  - apply (kernelActivations_static_shape (centers_ lwr3) (widths_ lwr3)
             (mkMatrix 2 [[40; 45]%R]) true);
      (repeat constructor) || reflexivity.
  - apply (kernelActivations_static_shape (centers_ lwr3) (widths_ lwr3)
             (mkMatrix 2 [[40; 45]%R]) false);
      (repeat constructor) || reflexivity.
Defined.

(** *** The prediction *)

Section Prediction.
Context {D : Type} `{Arith D, Libm D, Atan2 D}.
Implicit Types m : ModelParametersUnified D.

(** The caching [kernelActivations] always returns, writes nothing and
    touches nothing but the memo. *)
Lemma kernelActivations_returns (inputs : MatrixXd D) m :
  exists K m',
    kernelActivations inputs m = (Returned K, m', []) /\
    (m' = m \/ m' = set_cache inputs K m).
Proof.
  unfold kernelActivations, mbind, M_bind, get, modify, mret, M_ret.
  destruct (caching_ m); cbn [andb].
  - destruct (_ && _); eexists _, _; (split; [reflexivity|]); [by left|by right].
  - eexists _, _. split; [reflexivity|by left].
Qed.

Lemma locallyWeightedLines_run (inputs : MatrixXd D) m K m' :
  kernelActivations inputs m = (Returned K, m', []) ->
  locallyWeightedLines inputs m =
  (Returned (mkMatrix (rows (getLines m inputs))
               [rowwise_sum (cwise2 dmul (getLines m inputs) K)]),
   m', []).
Proof.
  intros HK. unfold locallyWeightedLines, mbind, M_bind, get. by rewrite HK.
Qed.

Lemma getLines_entries m (inputs : MatrixXd D) :
  valid m ->
  getLines m inputs =
  matrix_of_entries (rows inputs) (n_basis m) (fun b s => line_value m inputs s b).
Proof. apply getLines_tabulate. Qed.

Lemma direct_entries m (inputs : MatrixXd D) :
  direct m inputs =
  matrix_of_entries (rows inputs) (n_basis m) (fun b s => coeff (direct m inputs) s b).
Proof.
  rewrite (matrix_of_entries_eq (direct m inputs)) at 1
    by apply kernelActivations_static_wf.
  unfold direct. by rewrite kernelActivations_shape, kernelActivations_static_cols.
Qed.

(** The prediction from the activations computed afresh. *)
Lemma weighted_lines_entries m (inputs : MatrixXd D) :
  valid m ->
  rowwise_sum (cwise2 dmul (getLines m inputs) (direct m inputs))
  = (fun s => weighted_sum m inputs s) <$> seq 0 (rows inputs).
Proof.
  intros Hv. rewrite getLines_entries by done. rewrite direct_entries.
  rewrite cwise2_entries, rowwise_sum_entries. reflexivity.
Qed.

Section PredictionExact.
Context `{!ExactEq D}.

(** [locallyWeightedLines] on a valid model whose memo is empty or
    right: the output is one column with, for every sample, the sum over
    the basis functions of the line's value times the activation
    computed from the current centers and widths. The cache never shows
    in it, not even for an input without rows. *)
Theorem locallyWeightedLines_is_weighted_sum (inputs : MatrixXd D) m :
  valid m -> cache_ok m -> wf_matrix inputs ->
  result_of (locallyWeightedLines inputs m) =
  Returned (mkMatrix (rows inputs)
              [(fun s => weighted_sum m inputs s) <$> seq 0 (rows inputs)]).
Proof.
  intros Hv Hok Hwf.
  destruct (decide (rows inputs = 0)) as [Hr0|Hr0].
  - destruct (kernelActivations_returns inputs m) as (K & m' & HK & _).
    rewrite (locallyWeightedLines_run inputs m K m' HK).
    rewrite getLines_entries by done. unfold rowwise_sum.
    cbn [result_of fst snd cwise2 matrix_of_entries rows]. by rewrite Hr0.
  - destruct (query_is_direct inputs m Hok Hwf (or_introl Hr0)) as (m' & HK & _).
    rewrite (locallyWeightedLines_run inputs m _ m' HK).
    rewrite weighted_lines_entries by done.
    rewrite getLines_entries by done. reflexivity.
Qed.

End PredictionExact.

End Prediction.

(** The running example queried at 40, from its empty memo. *)
Lemma locallyWeightedLines_is_weighted_sum_witness :
  result_of (locallyWeightedLines (mkMatrix 1 [[40%R]]) lwr3) =
  Returned (mkMatrix 1 [[weighted_sum lwr3 (mkMatrix 1 [[40%R]]) 0]]).
Proof.
  apply (locallyWeightedLines_is_weighted_sum (mkMatrix 1 [[40%R]]) lwr3).
  - prove_valid.
  - split; [constructor|left; by split].
  - repeat constructor.
Defined.

(** *** The toggle and the activations *)

Section ToggleActivations.
Context {D : Type} `{Arith D, Libm D, Atan2 D}.
Implicit Types m : ModelParametersUnified D.

(** The activations depend on neither the offsets nor the pivot flag. *)
Lemma kernelActivations_toggle (flag : bool) m (inputs : MatrixXd D) K m' :
  kernelActivations inputs m = (Returned K, m', []) ->
  exists m'',
    kernelActivations inputs (state_of (set_lines_pivot_at_max_activation flag m))
    = (Returned K, m'', []).
Proof.
  rewrite set_lines_pivot_at_max_activation_run.
  destruct (Bool.eqb _ _); [by exists m'|].
  cbn [state_of fst snd].
  unfold kernelActivations, mbind, M_bind, get, modify, mret, M_ret.
  cbn [caching_ inputs_cached_ kernel_activations_cached_ centers_ widths_
       normalized_basis_functions_ set_pivot_flag set_offsets].
  destruct (caching_ m); cbn [andb].
  - destruct (_ && _); intros [= <- _]; by eexists.
  - intros [= <- _]; by eexists.
Qed.

(** [set_lines_pivot_at_max_activation] leaves the activations alone, in
    any arithmetic: it calls no [clearCache] and prints nothing, it
    changes neither centers, widths and slopes nor the memo, and a
    query returns the same activations after it as before it. So the
    prediction after it is the new lines weighted by the activations
    of before. The query has one column for each dimension. *)
Theorem toggle_keeps_activations (flag : bool) m (inputs : MatrixXd D) :
  valid m -> wf_matrix inputs -> cols inputs = n_dims m ->
  let toggle := set_lines_pivot_at_max_activation flag m in
  let m' := state_of toggle in
  trace_of toggle = [] /\
  centers_ m' = centers_ m /\ widths_ m' = widths_ m /\ slopes_ m' = slopes_ m /\
  inputs_cached_ m' = inputs_cached_ m /\
  kernel_activations_cached_ m' = kernel_activations_cached_ m /\
  result_of (kernelActivations inputs m') = result_of (kernelActivations inputs m) /\
  exists K,
    result_of (kernelActivations inputs m) = Returned K /\
    result_of (locallyWeightedLines inputs m')
    = Returned (mkMatrix (rows inputs)
                  [rowwise_sum (cwise2 dmul (getLines m' inputs) K)]).
Proof.
  intros Hv Hwf Hcols toggle m'.
  destruct (kernelActivations_returns inputs m) as (K & m1 & HK & _).
  destruct (kernelActivations_toggle flag m inputs K m1 HK) as (m2 & HK').
  fold toggle m' in HK'.
  assert (Hfields : trace_of toggle = [] /\
            centers_ m' = centers_ m /\ widths_ m' = widths_ m /\
            slopes_ m' = slopes_ m /\ inputs_cached_ m' = inputs_cached_ m /\
            kernel_activations_cached_ m' = kernel_activations_cached_ m).
  { unfold m', toggle. rewrite set_lines_pivot_at_max_activation_run.
    by destruct (Bool.eqb _ _). }
  destruct Hfields as (Ht & HC & HW & HS & HI & HA).
  repeat (split; [done|]). split; [by rewrite HK, HK'|].
  exists K. split; [by rewrite HK|].
  rewrite (locallyWeightedLines_run inputs m' K m2 HK').
  assert (Hv' : valid m') by (by apply valid_toggle).
  by rewrite (getLines_entries m' inputs Hv') at 1.
Qed.

End ToggleActivations.

(** The running example at 40, before and after the toggle to the pivot
    form. *)
Lemma toggle_keeps_activations_witness :
  result_of (kernelActivations (mkMatrix 1 [[40%R]])
               (state_of (set_lines_pivot_at_max_activation true lwr3)))
  = result_of (kernelActivations (mkMatrix 1 [[40%R]]) lwr3).
Proof.
  apply (toggle_keeps_activations true lwr3 (mkMatrix 1 [[40%R]]));
    [prove_valid|repeat constructor|reflexivity].
Defined.

(** *** Modifiers by name *)

Section Modifiers.
Context {D : Type} `{Arith D, Libm D, Atan2 D}.
Implicit Types m : ModelParametersUnified D.

(** [setParameterVectorModifierPrivate] passes [new_value] to
    [set_lines_pivot_at_max_activation] for the one name and to
    [set_slopes_as_angles] for the other; for every other name it
    returns without an error, a message or a change of the object. *)
Theorem setParameterVectorModifierPrivate_by_name (modifier : string)
    (new_value : bool) m :
  (modifier = "lines_pivot_at_max_activation" ->
   setParameterVectorModifierPrivate modifier new_value m
   = set_lines_pivot_at_max_activation new_value m) /\
  (modifier = "slopes_as_angles" ->
   setParameterVectorModifierPrivate modifier new_value m
   = set_slopes_as_angles new_value m) /\
  (modifier <> "lines_pivot_at_max_activation" ->
   modifier <> "slopes_as_angles" ->
   setParameterVectorModifierPrivate modifier new_value m = (Returned tt, m, [])).
Proof.
  unfold setParameterVectorModifierPrivate. split; [|split].
  - intros ->. cbn [String.eqb Ascii.eqb Bool.eqb].
    unfold mbind, M_bind. rewrite set_lines_pivot_at_max_activation_run.
    by destruct (Bool.eqb _ _).
  - intros ->. reflexivity.
  - intros Hn1 Hn2.
    apply String.eqb_neq in Hn1, Hn2. rewrite Hn1, Hn2. reflexivity.
Qed.

End Modifiers.

(** A name that is no modifier, on the running example. *)
Lemma setParameterVectorModifierPrivate_by_name_witness :
  setParameterVectorModifierPrivate "offsets" true lwr3 = (Returned tt, lwr3, []).
Proof.
  apply (setParameterVectorModifierPrivate_by_name "offsets" true lwr3); discriminate.
Defined.

(** *** The class invariant over any sequence of calls *)

Section CallSequences.
Context {D : Type} `{Arith D, Libm D, Atan2 D}.
Implicit Types m : ModelParametersUnified D.

Lemma same_frame_refl m : same_frame m m.
Proof. by repeat split. Qed.

Lemma same_frame_trans m1 m2 m3 :
  same_frame m1 m2 -> same_frame m2 m3 -> same_frame m1 m3.
Proof.
  intros (? & ? & ? & ? & ? & ?) (? & ? & ? & ? & ? & ?).
  repeat split; congruence.
Qed.

Lemma frame_set_cache (inputs K : MatrixXd D) m : same_frame m (set_cache inputs K m).
Proof. by repeat split. Qed.

Lemma frame_kernelActivations (inputs : MatrixXd D) m :
  same_frame m (state_of (kernelActivations inputs m)).
Proof.
  destruct (kernelActivations_returns inputs m) as (K & m' & -> & [->| ->]);
    [apply same_frame_refl|apply frame_set_cache].
Qed.

Lemma frame_locallyWeightedLines (inputs : MatrixXd D) m :
  state_of (locallyWeightedLines inputs m) = state_of (kernelActivations inputs m).
Proof.
  destruct (kernelActivations_returns inputs m) as (K & m' & HK & _).
  by rewrite (locallyWeightedLines_run inputs m K m' HK), HK.
Qed.

Lemma frame_toggle (flag : bool) m :
  same_frame m (state_of (set_lines_pivot_at_max_activation flag m)).
Proof.
  rewrite set_lines_pivot_at_max_activation_run.
  destruct (Bool.eqb _ _); by repeat split.
Qed.

Lemma frame_setParameterVectorAll (values : VectorXd D) m :
  valid m -> same_frame m (state_of (setParameterVectorAll values m)).
Proof.
  intros Hv.
  destruct (decide (length values = getParameterVectorAllSize m)) as [Hlen|Hlen].
  - destruct (valid_dims m Hv) as (_ & Hw2 & _ & Hs2 & _ & _).
    rewrite (setParameterVectorAll_right_size values m) by done.
    unfold same_frame, n_basis, n_dims, getParameterVectorAllSize, cols.
    cbn. rewrite new_columns_length. by repeat split.
  - rewrite setParameterVectorAll_too_short_or_long by done.
    apply same_frame_refl.
Qed.

Lemma modifier_cases (modifier : string) (new_value : bool) m :
  state_of (setParameterVectorModifierPrivate modifier new_value m) = m \/
  state_of (setParameterVectorModifierPrivate modifier new_value m)
  = state_of (set_lines_pivot_at_max_activation new_value m) \/
  state_of (setParameterVectorModifierPrivate modifier new_value m)
  = state_of (set_slopes_as_angles new_value m).
Proof.
  unfold setParameterVectorModifierPrivate.
  destruct (String.eqb modifier "lines_pivot_at_max_activation") eqn:E1.
  - apply String.eqb_eq in E1 as ->. right. left.
    cbn [String.eqb Ascii.eqb Bool.eqb].
    unfold mbind, M_bind. rewrite set_lines_pivot_at_max_activation_run.
    by destruct (Bool.eqb _ _).
  - destruct (String.eqb modifier "slopes_as_angles"); [right; right|left]; done.
Qed.

Lemma after_call_keeps (c : call D) m :
  valid m -> valid (after_call m c) /\ same_frame m (after_call m c).
Proof.
  intros Hv. destruct c as [values|flag|angles|modifier new_value|inputs|inputs];
    cbn [after_call].
  - split; [by apply valid_setParameterVectorAll|by apply frame_setParameterVectorAll].
  - split; [by apply valid_toggle|apply frame_toggle].
  - split; [by apply valid_set_slopes_as_angles|].
    destruct Hv. by repeat split.
  - destruct (modifier_cases modifier new_value m) as [-> | [-> | ->]].
    + split; [done|apply same_frame_refl].
    + split; [by apply valid_toggle|apply frame_toggle].
    + split; [by apply valid_set_slopes_as_angles|].
      destruct Hv. by repeat split.
  - split; [by apply valid_kernelActivations|apply frame_kernelActivations].
  - rewrite frame_locallyWeightedLines.
    split; [by apply valid_kernelActivations|apply frame_kernelActivations].
Qed.

(** Whatever member functions are called on a valid object, in whatever
    order, with vectors of any length and modifiers of any name, and
    with query matrices that have one column for each dimension, the
    object stays valid: the shapes agree, the size bookkeeping is right
    and [slopes_as_angles_] is [false]. The number of basis functions,
    the number of dimensions, the priors, the normalisation flag, the
    caching flag and the length of the full vector never change. *)
Theorem valid_after_calls (cs : list (call D)) m :
  valid m -> Forall (call_ok m) cs ->
  let m' := fold_left after_call cs m in
  valid m' /\
  n_basis m' = n_basis m /\ n_dims m' = n_dims m /\
  priors_ m' = priors_ m /\
  normalized_basis_functions_ m' = normalized_basis_functions_ m /\
  caching_ m' = caching_ m /\
  getParameterVectorAllSize m' = getParameterVectorAllSize m.
Proof.
  intros Hv Hok. cbn zeta. change (valid (fold_left after_call cs m) /\
    same_frame m (fold_left after_call cs m)).
  clear Hok. revert m Hv.
  induction cs as [|c cs IH]; intros m Hv; cbn [fold_left].
  - split; [done|apply same_frame_refl].
  - destruct (after_call_keeps c m Hv) as [Hv' Hf'].
    destruct (IH _ Hv') as [Hv'' Hf'']. split; [done|].
    by eapply same_frame_trans.
Qed.

End CallSequences.

(** A write of the wrong length, both modifiers, a query and a write
    of the right length, on the running example. *)
Lemma valid_after_calls_witness :
  valid (fold_left after_call
           [Call_setParameterVectorAll [1%R];
            Call_setParameterVectorModifierPrivate "lines_pivot_at_max_activation" true;
            Call_setParameterVectorModifierPrivate "slopes_as_angles" true;
            Call_locallyWeightedLines (mkMatrix 1 [[40%R]]);
            Call_setParameterVectorAll (replicate 15 2%R)] lwr3).
Proof.
  apply (valid_after_calls _ lwr3); [prove_valid|].
  repeat constructor.
Defined.

(** *** Reading the vector that was written *)

Section WriteThenRead.
Context {D : Type} `{Arith D, Libm D, Atan2 D}.
Implicit Types m : ModelParametersUnified D.

(** The columns that a loop of [setParameterVectorAll] reads lie back
    to back in [values]. *)
Lemma concat_new_columns (values : VectorXd D) base r d :
  concat (new_columns values base r d) = segment base (d * r) values.
Proof.
  unfold new_columns, segment. induction d as [|d IH].
  - cbn. by rewrite take_0.
  - rewrite seq_S, fmap_app, concat_app, IH. cbn [fmap list_fmap concat Nat.add].
    rewrite (right_id_L [] (++)).
    replace (drop (base + d * r) values) with (drop (d * r) (drop base values))
      by (by rewrite drop_drop).
    rewrite take_take_drop. f_equal. lia.
Qed.

Lemma segment_segment (values : VectorXd D) a b c :
  segment a b values ++ segment (a + b) c values = segment a (b + c) values.
Proof.
  unfold segment.
  replace (drop (a + b) values) with (drop b (drop a values)) by (by rewrite drop_drop).
  apply take_take_drop.
Qed.

Lemma state_after_right_size (values : VectorXd D) m :
  valid m -> length values = getParameterVectorAllSize m ->
  setParameterVectorAll values m =
  (Returned tt, after_setParameterVectorAll values m,
   (fun _ => ClearCache) <$> cache_clearing_columns values m).
Proof.
  intros Hv Hlen. destruct (valid_dims m Hv) as (_ & Hw2 & _ & Hs2 & _ & _).
  by apply setParameterVectorAll_right_size.
Qed.

Lemma after_setParameterVectorAll_dims (values : VectorXd D) m :
  n_basis (after_setParameterVectorAll values m) = n_basis m /\
  n_dims (after_setParameterVectorAll values m) = n_dims m.
Proof.
  unfold n_basis, n_dims, cols. cbn. by rewrite new_columns_length.
Qed.

Lemma getParameterVectorAll_after_set (values buf : VectorXd D) m :
  valid m ->
  length values = getParameterVectorAllSize m ->
  length buf = getParameterVectorAllSize m ->
  getParameterVectorAll (after_setParameterVectorAll values m) buf =
  take (getParameterVectorAllSize m - n_basis m) values
  ++ drop (getParameterVectorAllSize m - n_basis m) buf.
Proof.
  intros Hv Hlen Hbuf.
  pose proof (valid_after_setParameterVectorAll values m Hv Hlen) as Hv'.
  destruct (after_setParameterVectorAll_dims values m) as [Hn Hd].
  assert (Hsz : getParameterVectorAllSize (after_setParameterVectorAll values m)
                = getParameterVectorAllSize m) by done.
  rewrite (getParameterVectorAll_concat _ buf Hv') by congruence.
  rewrite Hn, Hd. rewrite (valid_all_size m Hv).
  cbn [after_setParameterVectorAll centers_ widths_ slopes_ offsets_ columns].
  rewrite !concat_new_columns. fold (n_basis m) (n_dims m).
  set (n := n_basis m). set (L := n_dims m * n).
  replace (n * n_dims m) with L by (unfold L; lia).
  replace (L + L + n + L + n - n) with (L + L + n + L) by lia.
  rewrite !(assoc_L (++)). f_equal.
  replace (segment L L values) with (segment (0 + L) L values) by done.
  rewrite segment_segment.
  replace (segment (L + L) n values) with (segment (0 + (L + L)) n values) by done.
  rewrite segment_segment.
  replace (segment (L + L + n) L values) with (segment (0 + (L + L + n)) L values)
    by done.
  rewrite segment_segment. unfold segment. rewrite drop_0. f_equal.
Qed.

(** A vector of the right length is written, then the full vector is
    read into [buf] (the output parameter right after its [resize]).
    What is read are the coefficients that were written, up to the
    segment of the priors: the last [n_basis] coefficients written are
    not read back, and the last [n_basis] coefficients of the output
    are those that [buf] held. *)
Theorem read_after_write (values buf : VectorXd D) m :
  valid m ->
  length values = getParameterVectorAllSize m ->
  length buf = getParameterVectorAllSize m ->
  let k := getParameterVectorAllSize m - n_basis m in
  let v := getParameterVectorAll (state_of (setParameterVectorAll values m)) buf in
  v = take k values ++ drop k buf /\
  length v = getParameterVectorAllSize m /\
  (forall i, i < k -> v !! i = values !! i) /\
  (forall i, k <= i -> v !! i = buf !! i).
Proof.
  intros Hv Hlen Hbuf k v.
  assert (Hk : k <= getParameterVectorAllSize m) by (unfold k; lia).
  assert (Hv_eq : v = take k values ++ drop k buf).
  { unfold v. rewrite state_after_right_size by done.
    by apply getParameterVectorAll_after_set. }
  assert (Htake : length (take k values) = k) by (rewrite length_take; lia).
  split; [exact Hv_eq|]. rewrite Hv_eq. split; [|split].
  - rewrite length_app, Htake, length_drop. lia.
  - intros i Hi. rewrite lookup_app_l by lia. by apply lookup_take_lt.
  - intros i Hi. rewrite lookup_app_r by lia. rewrite Htake, lookup_drop.
    f_equal. lia.
Qed.

Lemma self_equal_new_columns (values : VectorXd D) r base size d :
  Forall (fun x => deqb x x = true) values ->
  self_equal (mkMatrix r (new_columns values base size d)).
Proof.
  intros Hself. unfold self_equal, new_columns. cbn [columns].
  apply Forall_fmap, Forall_forall. intros i _. cbn.
  unfold segment. by apply Forall_take, Forall_drop.
Qed.

(** Writing the same vector a second time changes nothing, clears no
    cache and prints nothing, in any arithmetic, provided that no
    coefficient of the vector differs from itself. *)
Theorem second_write_changes_nothing (values : VectorXd D) m :
  valid m ->
  length values = getParameterVectorAllSize m ->
  Forall (fun x => deqb x x = true) values ->
  let m' := state_of (setParameterVectorAll values m) in
  setParameterVectorAll values m' = (Returned tt, m', []).
Proof.
  intros Hv Hlen Hself m'.
  assert (Hm' : m' = after_setParameterVectorAll values m).
  { unfold m'. by rewrite state_after_right_size. }
  pose proof (valid_after_setParameterVectorAll values m Hv Hlen) as Hv'.
  rewrite <- Hm' in Hv'.
  assert (Hread : getParameterVectorAll m' values = values).
  { rewrite Hm', getParameterVectorAll_after_set by done. apply take_drop. }
  rewrite <- Hread at 1.
  apply setParameterVectorAll_getParameterVectorAll; try done.
  - rewrite Hm'. by apply self_equal_new_columns.
  - rewrite Hm'. by apply self_equal_new_columns.
  - rewrite Hm'. exact Hlen.
Qed.

Lemma segment_of_prefix (v1 v2 : VectorXd D) k base size :
  take k v1 = take k v2 -> base + size <= k ->
  segment base size v1 = segment base size v2.
Proof.
  intros Hpre Hle. unfold segment. rewrite !take_drop_commute.
  replace (take (base + size) v1) with (take (base + size) (take k v1))
    by (rewrite take_take; f_equal; lia).
  replace (take (base + size) v2) with (take (base + size) (take k v2))
    by (rewrite take_take; f_equal; lia).
  by rewrite Hpre.
Qed.

Lemma new_columns_of_prefix (v1 v2 : VectorXd D) k base size d :
  take k v1 = take k v2 -> base + d * size <= k ->
  new_columns v1 base size d = new_columns v2 base size d.
Proof.
  intros Hpre Hle. unfold new_columns. apply tabulate_ext. intros i Hi.
  apply (segment_of_prefix v1 v2 k); [done|].
  assert (S i * size <= d * size) by (apply Nat.mul_le_mono_r; lia). lia.
Qed.

Lemma changed_columns_of_prefix (v1 v2 : VectorXd D) (A : MatrixXd D) k base size d :
  take k v1 = take k v2 -> base + d * size <= k ->
  changed_columns true v1 A base size d = changed_columns true v2 A base size d.
Proof.
  intros Hpre Hle. unfold changed_columns. apply List.filter_ext_in.
  intros i Hi. apply in_seq in Hi. do 3 f_equal.
  apply (segment_of_prefix v1 v2 k); [done|].
  assert (S i * size <= d * size) by (apply Nat.mul_le_mono_r; lia). lia.
Qed.

(** [setParameterVectorAll] never reads the last [n_basis] coefficients
    of its argument, the segment that the size sets aside for the
    priors: two vectors of the right length that agree before that
    segment have the same effect, and no write changes the priors. *)
Theorem setParameterVectorAll_ignores_priors_segment (v1 v2 : VectorXd D) m :
  valid m ->
  length v1 = getParameterVectorAllSize m ->
  length v2 = getParameterVectorAllSize m ->
  take (getParameterVectorAllSize m - n_basis m) v1
  = take (getParameterVectorAllSize m - n_basis m) v2 ->
  setParameterVectorAll v1 m = setParameterVectorAll v2 m /\
  priors_ (state_of (setParameterVectorAll v1 m)) = priors_ m.
Proof.
  intros Hv Hl1 Hl2 Hpre.
  rewrite !state_after_right_size by done. split; [|done].
  pose proof (valid_all_size m Hv) as Hsz. rewrite Hsz in Hpre.
  destruct (valid_dims m Hv) as (Hw1 & Hw2 & Hs1 & Hs2 & Ho & Hp).
  unfold n_basis, n_dims in *.
  set (r := rows (centers_ m)) in *. set (d := cols (centers_ m)) in *.
  set (k := r * d + r * d + r + r * d + r - r) in *.
  assert (Hdr : d * r = r * d) by lia.
  assert (Hcc : cache_clearing_columns v1 m = cache_clearing_columns v2 m).
  { unfold cache_clearing_columns. fold r d.
    rewrite (changed_columns_of_prefix v1 v2 (centers_ m) k 0) by (done || lia).
    rewrite (changed_columns_of_prefix v1 v2 (widths_ m) k (d * r)) by (done || lia).
    done. }
  rewrite Hcc. f_equal. f_equal.
  unfold after_setParameterVectorAll. rewrite Hcc. fold r d.
  rewrite (new_columns_of_prefix v1 v2 k 0) by (done || lia).
  rewrite (new_columns_of_prefix v1 v2 k (d * r)) by (done || lia).
  rewrite (new_columns_of_prefix v1 v2 k (d * r + d * r + r)) by (done || lia).
  rewrite (segment_of_prefix v1 v2 k (d * r + d * r) r) by (done || lia).
  done.
Qed.

End WriteThenRead.

(** Fifteen coefficients 1 to 15 written to the running example and
    read back into fifteen zeros. *)
Lemma read_after_write_witness :
  getParameterVectorAll
    (state_of (setParameterVectorAll
                 [1; 2; 3; 4; 5; 6; 7; 8; 9; 10; 11; 12; 13; 14; 15]%R lwr3))
    (replicate 15 0%R)
  = [1; 2; 3; 4; 5; 6; 7; 8; 9; 10; 11; 12; 0; 0; 0]%R.
Proof.
  apply (read_after_write
           [1; 2; 3; 4; 5; 6; 7; 8; 9; 10; 11; 12; 13; 14; 15]%R
           (replicate 15 0%R) lwr3);
    [prove_valid|reflexivity|reflexivity].
Defined.

(** A vector of twos written twice to the running example. *)
Lemma second_write_changes_nothing_witness :
  let m' := state_of (setParameterVectorAll (replicate 15 2%R) lwr3) in
  setParameterVectorAll (replicate 15 2%R) m' = (Returned tt, m', []).
Proof.
  apply (second_write_changes_nothing (replicate 15 2%R) lwr3);
    [prove_valid|reflexivity|].
  apply Forall_forall. intros x _. by apply Reqb_eq.
Defined.

(** Two vectors that differ in their last three coefficients only. *)
Lemma setParameterVectorAll_ignores_priors_segment_witness :
  setParameterVectorAll (replicate 12 2%R ++ [7; 8; 9]%R) lwr3
  = setParameterVectorAll (replicate 15 2%R) lwr3.
Proof.
  apply (setParameterVectorAll_ignores_priors_segment
           (replicate 12 2%R ++ [7; 8; 9]%R) (replicate 15 2%R) lwr3);
    [prove_valid|reflexivity|reflexivity|reflexivity].
Defined.

(** *** The layout of the full vector and of the mask *)

Section Layout.
Context {D : Type} `{Arith D, Libm D, Atan2 D}.
Implicit Types m : ModelParametersUnified D.

Lemma lookup_segment {A} (v : list A) base size i :
  i < size -> segment base size v !! i = v !! (base + i).
Proof.
  intros Hi. unfold segment. rewrite lookup_take_lt by done. apply lookup_drop.
Qed.

Lemma coeff_lookup (A : MatrixXd D) i j c :
  columns A !! j = Some c -> i < length c -> c !! i = Some (coeff A i j).
Proof.
  intros Hc Hi. unfold coeff, col. rewrite (nth_lookup_Some _ _ _ _ Hc).
  destruct (lookup_lt_is_Some_2 c i Hi) as [x Hx].
  by rewrite Hx, (nth_lookup_Some _ _ _ _ Hx).
Qed.

Lemma lookup_column_segment (A : MatrixXd D) (v : list D) base i j :
  wf_matrix A -> i < rows A -> j < cols A ->
  (forall j c, columns A !! j = Some c -> segment (base + j * rows A) (rows A) v = c) ->
  v !! (base + j * rows A + i) = Some (coeff A i j).
Proof.
  intros Hwf Hi Hj Hseg.
  destruct (lookup_lt_is_Some_2 (columns A) j Hj) as [c Hc].
  assert (Hr : length c = rows A) by exact (proj1 (Forall_lookup _ _) Hwf j c Hc).
  rewrite <- (lookup_segment v (base + j * rows A) (rows A) i Hi).
  rewrite (Hseg j c Hc). apply coeff_lookup; [done|lia].
Qed.

Lemma lookup_tagged (pre post : list nat) k t p :
  p < k -> (pre ++ replicate k t ++ post) !! (length pre + p) = Some t.
Proof.
  intros Hp. rewrite lookup_app_r by lia.
  replace (length pre + p - length pre) with p by lia.
  rewrite lookup_app_l by (rewrite length_replicate; lia).
  by apply lookup_replicate_2.
Qed.

(** The full vector is laid out column by column: the coefficient
    [(i, j)] of the centers is at index [j * n_basis + i], that of the
    widths follows the centers, offset [i] follows the widths, and the
    coefficient [(i, j)] of the slopes follows the offsets. The mask
    tags the same indices with 1, 2, 3 and 4, or with 0 if the label is
    not selected. *)
Theorem flat_vector_is_column_major m (buf : VectorXd D) (labels : gset string) i j :
  valid m -> length buf = getParameterVectorAllSize m ->
  i < n_basis m -> j < n_dims m ->
  let v := getParameterVectorAll m buf in
  let mask := getParameterVectorMask m labels in
  let n := n_basis m in
  let nd := n_basis m * n_dims m in
  (v !! (j * n + i) = Some (coeff (centers_ m) i j) /\
   v !! (nd + j * n + i) = Some (coeff (widths_ m) i j) /\
   v !! (nd + nd + i) = Some (nth i (offsets_ m) d0) /\
   v !! (nd + nd + n + j * n + i) = Some (coeff (slopes_ m) i j)) /\
  (mask !! (j * n + i)
     = Some (if bool_decide ("centers" ∈ labels) then 1 else 0) /\
   mask !! (nd + j * n + i)
     = Some (if bool_decide ("widths" ∈ labels) then 2 else 0) /\
   mask !! (nd + nd + i)
     = Some (if bool_decide ("offsets" ∈ labels) then 3 else 0) /\
   mask !! (nd + nd + n + j * n + i)
     = Some (if bool_decide ("slopes" ∈ labels) then 4 else 0)).
Proof.
  intros Hv Hlen Hi Hj v mask n nd.
  destruct (valid_dims m Hv) as (Hw1 & Hw2 & Hs1 & Hs2 & Ho & Hp).
  destruct (getParameterVectorAll_segments m buf Hv Hlen)
    as (Hl & HsC & HsW & HsO & HsS).
  fold v in Hl, HsC, HsW, HsO, HsS.
  unfold n_basis, n_dims in *. fold n in Hw1, Hs1, Ho, Hp, Hi, HsC, HsW, HsO, HsS.
  assert (Hdn : cols (centers_ m) * n = nd) by (unfold nd, n; lia).
  rewrite Hdn in HsW, HsO, HsS.
  assert (Hji : j * n + i < nd).
  { assert (S j * n <= cols (centers_ m) * n) by (apply Nat.mul_le_mono_r; lia).
    lia. }
  split; [split; [|split; [|split]]|].
  - apply (lookup_column_segment (centers_ m) v 0 i j);
      [by apply valid_centers|done|done|exact HsC].
  - pose proof (lookup_column_segment (widths_ m) v nd i j) as HW.
    rewrite Hw1 in HW. apply HW; [by apply valid_widths|done|lia|exact HsW].
  - rewrite <- (lookup_segment v (nd + nd) n i Hi), HsO.
    destruct (lookup_lt_is_Some_2 (offsets_ m) i ltac:(lia)) as [x Hx].
    by rewrite Hx, (nth_lookup_Some _ _ _ _ Hx).
  - pose proof (lookup_column_segment (slopes_ m) v (nd + nd + n) i j) as HS.
    rewrite Hs1 in HS. apply HS; [by apply valid_slopes|done|lia|exact HsS].
  - unfold mask. rewrite (getParameterVectorMask_valid m labels Hv).
    unfold n_basis, n_dims. fold n nd.
    set (t1 := if bool_decide ("centers" ∈ labels) then 1 else 0).
    set (t2 := if bool_decide ("widths" ∈ labels) then 2 else 0).
    set (t3 := if bool_decide ("offsets" ∈ labels) then 3 else 0).
    set (t4 := if bool_decide ("slopes" ∈ labels) then 4 else 0).
    split; [|split; [|split]].
    + exact (lookup_tagged [] _ nd t1 (j * n + i) Hji).
    + pose proof (lookup_tagged (replicate nd t1)
                    (replicate n t3 ++ replicate nd t4 ++ replicate n 0)
                    nd t2 (j * n + i) Hji) as Hk.
      rewrite length_replicate in Hk. by rewrite <- Nat.add_assoc.
    + pose proof (lookup_tagged (replicate nd t1 ++ replicate nd t2)
                    (replicate nd t4 ++ replicate n 0) n t3 i Hi) as Hk.
      rewrite length_app, !length_replicate, <- (assoc_L (++)) in Hk. exact Hk.
    + pose proof (lookup_tagged
                    (replicate nd t1 ++ replicate nd t2 ++ replicate n t3)
                    (replicate n 0) nd t4 (j * n + i) Hji) as Hk.
      rewrite !length_app, !length_replicate, <- !(assoc_L (++)) in Hk.
      rewrite <- Hk. f_equal. lia.
Qed.

End Layout.

(** The second center of the running example, the third width and the
    mask of the slopes. *)
Lemma flat_vector_is_column_major_witness :
  getParameterVectorAll lwr3 (replicate 15 0%R) !! 1 = Some 40%R /\
  getParameterVectorAll lwr3 (replicate 15 0%R) !! 5 = Some 5%R /\
  getParameterVectorMask lwr3 {["slopes"]} !! 10 = Some 4.
Proof.
  destruct (flat_vector_is_column_major lwr3 (replicate 15 0%R) {["slopes"]} 1 0)
    as ((Hc & _ & _ & Hs) & (_ & _ & _ & Hm));
    [prove_valid|reflexivity|vm_compute; lia|vm_compute; lia|].
  destruct (flat_vector_is_column_major lwr3 (replicate 15 0%R) {["slopes"]} 2 0)
    as ((_ & Hw & _ & _) & _);
    [prove_valid|reflexivity|vm_compute; lia|vm_compute; lia|].
  split; [exact Hc|]. split; [exact Hw|]. exact Hm.
Defined.

(** *** The memo *)

Section Memo.
Context {D : Type} `{Arith D, Libm D, Atan2 D}.
Implicit Types m : ModelParametersUnified D.

Lemma matrix_eq_all_refl (A : MatrixXd D) :
  self_equal A -> matrix_eq_all A A = true.
Proof.
  unfold self_equal, matrix_eq_all.
  induction 1 as [|c cs Hc _ IH]; [done|].
  cbn [zip zip_with forallb fst snd]. by rewrite array_eq_all_refl, IH.
Qed.

(** The caching [kernelActivations] in one step. *)
Lemma kernelActivations_run (inputs : MatrixXd D) m :
  kernelActivations inputs m =
  if caching_ m
     && (rows inputs =? rows (inputs_cached_ m))
     && (cols inputs =? cols (inputs_cached_ m))
     && matrix_eq_all inputs (inputs_cached_ m)
  then (Returned (kernel_activations_cached_ m), m, [])
  else (Returned (direct m inputs),
        if caching_ m then set_cache inputs (direct m inputs) m else m, []).
Proof.
  unfold kernelActivations, mbind, M_bind, get, modify, mret, M_ret.
  destruct (_ && _); [done|]. by destruct (caching_ m).
Qed.

(** The same query asked again: the second call returns the matrix that
    the first returned and changes nothing, whether caching is on or
    off and whatever the memo held before, provided that no coefficient
    of [inputs] differs from itself. With caching on, the second call
    finds [inputs] in the memo, or a matrix of the same shape that
    compares equal to it. *)
Theorem repeated_query_is_stable (inputs : MatrixXd D) m :
  self_equal inputs ->
  let first := kernelActivations inputs m in
  let second := kernelActivations inputs (state_of first) in
  result_of second = result_of first /\
  state_of second = state_of first /\
  trace_of second = [] /\
  (caching_ m = true ->
   inputs_cached_ (state_of first) = inputs \/
   matrix_eq_all inputs (inputs_cached_ (state_of first)) = true).
Proof.
  intros Hself first second. unfold second, first.
  rewrite (kernelActivations_run inputs m).
  destruct (caching_ m) eqn:Hc; cbn [andb].
  - destruct (_ && _) eqn:Hhit; cbn [state_of result_of trace_of fst snd].
    + rewrite kernelActivations_run, Hc. cbn [andb]. rewrite Hhit.
      repeat split. intros _. right. by apply andb_prop in Hhit as [_ Hhit].
    + rewrite kernelActivations_run.
      cbn [set_cache caching_ inputs_cached_ kernel_activations_cached_].
      rewrite Hc, !Nat.eqb_refl, matrix_eq_all_refl by done. cbn [andb].
      repeat split. intros _. by left.
  - cbn [state_of result_of trace_of fst snd]. rewrite kernelActivations_run, Hc.
    by repeat split.
Qed.

Section MemoExact.
Context `{!ExactEq D}.

(** A write that changes offsets and slopes only keeps the memo: if the
    coefficients written for the centers and the widths are those the
    model has (the first [2 * n_basis * n_dims] coefficients of its
    full vector), [clearCache] is not called, and centers, widths and
    both cache matrices are as before. *)
Theorem write_of_lines_keeps_memo (values buf : VectorXd D) m :
  valid m ->
  length values = getParameterVectorAllSize m ->
  length buf = getParameterVectorAllSize m ->
  take (2 * (n_basis m * n_dims m)) values
  = take (2 * (n_basis m * n_dims m)) (getParameterVectorAll m buf) ->
  let run := setParameterVectorAll values m in
  trace_of run = [] /\
  centers_ (state_of run) = centers_ m /\
  widths_ (state_of run) = widths_ m /\
  inputs_cached_ (state_of run) = inputs_cached_ m /\
  kernel_activations_cached_ (state_of run) = kernel_activations_cached_ m.
Proof.
  intros Hv Hlen Hbuf Hpre run.
  destruct (valid_dims m Hv) as (Hw1 & Hw2 & Hs1 & Hs2 & Ho & Hp).
  destruct (getParameterVectorAll_segments m buf Hv Hbuf)
    as (Hl & HsC & HsW & _ & _).
  set (v := getParameterVectorAll m buf) in *.
  unfold n_basis, n_dims in *.
  set (r := rows (centers_ m)) in *. set (d := cols (centers_ m)) in *.
  set (k := 2 * (r * d)) in *.
  assert (Hdr : d * r = r * d) by lia.
  assert (HnC : new_columns values 0 r d = columns (centers_ m)).
  { rewrite (new_columns_of_prefix values v k 0) by (done || lia).
    apply (new_columns_eq v (columns (centers_ m)) 0 r HsC). }
  assert (HnW : new_columns values (d * r) r d = columns (widths_ m)).
  { rewrite (new_columns_of_prefix values v k (d * r)) by (done || lia).
    pose proof (new_columns_eq v (columns (widths_ m)) (d * r) r HsW) as E.
    change (length (columns (widths_ m))) with (cols (widths_ m)) in E.
    by rewrite Hw2 in E. }
  assert (Hch1 : changed_columns true values (centers_ m) 0 r d = []).
  { rewrite (changed_columns_of_prefix values v (centers_ m) k 0) by (done || lia).
    apply changed_columns_nil. intros i Hi.
    destruct (lookup_lt_is_Some_2 (columns (centers_ m)) i Hi) as [c Hc].
    unfold col. rewrite (nth_lookup_Some _ _ _ _ Hc), (HsC i c Hc).
    apply array_eq_all_refl, Forall_forall. intros x _. by apply deqb_eq. }
  assert (Hch2 : changed_columns true values (widths_ m) (d * r) r d = []).
  { rewrite (changed_columns_of_prefix values v (widths_ m) k (d * r))
      by (done || lia).
    apply changed_columns_nil. intros i Hi.
    destruct (lookup_lt_is_Some_2 (columns (widths_ m)) i
                ltac:(fold (cols (widths_ m)); lia)) as [c Hc].
    unfold col. rewrite (nth_lookup_Some _ _ _ _ Hc), (HsW i c Hc).
    apply array_eq_all_refl, Forall_forall. intros x _. by apply deqb_eq. }
  unfold run. rewrite state_after_right_size by done.
  unfold after_setParameterVectorAll, cache_clearing_columns. fold r d.
  rewrite Hch1, Hch2, HnC, HnW. cbn.
  split; [done|]. split; [unfold r; by destruct (centers_ m)|].
  split; [by destruct (widths_ m)|]. done.
Qed.

End MemoExact.

End Memo.

(** The query at 40 asked twice of the running example. *)
Lemma repeated_query_is_stable_witness :
  result_of (kernelActivations (mkMatrix 1 [[40%R]])
               (state_of (kernelActivations (mkMatrix 1 [[40%R]]) lwr3)))
  = result_of (kernelActivations (mkMatrix 1 [[40%R]]) lwr3).
Proof.
  apply (repeated_query_is_stable (mkMatrix 1 [[40%R]]) lwr3).
  repeat constructor. by apply Reqb_eq.
Defined.

(** The running example with a query in its memo; the write keeps the
    centers 30, 40, 50 and the widths 5 and replaces offsets and
    slopes. *)
Lemma write_of_lines_keeps_memo_witness :
  let m := state_of (kernelActivations (mkMatrix 1 [[40%R]]) lwr3) in
  let run :=
    setParameterVectorAll [30; 40; 50; 5; 5; 5; 7; 8; 9; 2; 2; 2; 0; 0; 0]%R m in
  trace_of run = [] /\
  centers_ (state_of run) = centers_ m /\
  widths_ (state_of run) = widths_ m /\
  inputs_cached_ (state_of run) = mkMatrix 1 [[40%R]] /\
  kernel_activations_cached_ (state_of run) = kernel_activations_cached_ m.
Proof.
  apply (write_of_lines_keeps_memo
           [30; 40; 50; 5; 5; 5; 7; 8; 9; 2; 2; 2; 0; 0; 0]%R (replicate 15 0%R)
           (state_of (kernelActivations (mkMatrix 1 [[40%R]]) lwr3)));
    [prove_valid|reflexivity|reflexivity|reflexivity].
Defined.

(** *** What the constructors establish *)

Section Constructors.
Context {D : Type} `{Arith D, Libm D, Atan2 D}.
Implicit Types m : ModelParametersUnified D.

Lemma Zero_shape r c :
  wf_matrix (Zero r c : MatrixXd D) /\ rows (Zero r c : MatrixXd D) = r /\
  cols (Zero r c : MatrixXd D) = c.
Proof.
  unfold Zero, filled, wf_matrix, cols. cbn [rows columns].
  split; [|by rewrite length_replicate].
  apply Forall_forall. intros x Hx. apply elem_of_replicate in Hx as [-> _].
  apply length_replicate.
Qed.

Lemma shapes_assert m :
  checkDimensions_assert m = true <->
  rows (widths_ m) = rows (centers_ m) /\ cols (widths_ m) = cols (centers_ m) /\
  rows (slopes_ m) = rows (centers_ m) /\ cols (slopes_ m) = cols (centers_ m) /\
  length (offsets_ m) = rows (centers_ m) /\ length (priors_ m) = rows (centers_ m).
Proof.
  unfold checkDimensions_assert. rewrite !andb_true_iff, !Nat.eqb_eq.
  intuition congruence.
Qed.

(** The constructor that takes all five groups returns a valid object
    exactly when the shapes of the groups agree, i.e. when no assertion
    of [checkDimensions] fails. Whatever the shapes, the memo of the
    new object is empty, [slopes_as_angles_] is [false], and the length
    of the full vector is the number of all coefficients, those of the
    priors included. *)
Theorem constructor_valid_iff_shapes (centers widths slopes : MatrixXd D)
    (offsets priors : VectorXd D) (nbf pivot caching0 : bool) :
  wf_matrix centers -> wf_matrix widths -> wf_matrix slopes ->
  let m := ModelParametersUnified_priors centers widths slopes offsets priors
             nbf pivot caching0 in
  (valid m <->
   rows widths = rows centers /\ cols widths = cols centers /\
   rows slopes = rows centers /\ cols slopes = cols centers /\
   length offsets = rows centers /\ length priors = rows centers) /\
  memo_empty m /\
  slopes_as_angles_ m = false /\
  getParameterVectorAllSize m =
    rows centers * cols centers + rows widths * cols widths + length offsets
    + rows slopes * cols slopes + length priors.
Proof.
  intros HC HW HS m. unfold m, ModelParametersUnified_priors.
  rewrite construct_fields. split; [|split; [by split|split; [done|]]].
  - split.
    + intros Hv. exact (proj1 (shapes_assert _) (valid_shapes _ Hv)).
    + intros Hsh.
      split; [apply shapes_assert; exact Hsh|done|done|done|done|done].
  - unfold getParameterVectorAllSize. cbn. lia.
Qed.

Lemma weights_model_valid (centers widths : MatrixXd D) (weights : VectorXd D)
    (nbf pivot caching0 : bool) :
  wf_matrix centers -> wf_matrix widths ->
  rows widths = rows centers -> cols widths = cols centers ->
  length weights = rows centers ->
  valid (ModelParametersUnified_weights centers widths weights nbf pivot caching0).
Proof.
  intros HC HW Hr Hc Hl. unfold ModelParametersUnified_weights.
  rewrite construct_fields.
  destruct (Zero_shape (rows centers) (cols centers)) as (HZ & HZr & HZc).
  split; cbn [centers_ widths_ slopes_ offsets_ priors_ slopes_as_angles_
              all_values_vector_size_]; try done.
  apply shapes_assert.
  cbn [centers_ widths_ slopes_ offsets_ priors_].
  unfold Ones. by rewrite length_replicate.
Qed.

(** A clone is a valid object with an empty memo that has the lines,
    the activations and the full vector of the original. *)
Theorem clone_behaves_like_original (caching0 : bool) m
    (inputs : MatrixXd D) (buf : VectorXd D) :
  valid m ->
  let c := clone caching0 m in
  valid c /\ memo_empty c /\ caching_ c = caching0 /\
  getLines c inputs = getLines m inputs /\
  direct c inputs = direct m inputs /\
  getParameterVectorAll c buf = getParameterVectorAll m buf /\
  getParameterVectorAllSize c = getParameterVectorAllSize m.
Proof.
  intros Hv c. split; [by apply valid_clone|].
  destruct (valid_dims m Hv) as (Hw1 & Hw2 & Hs1 & Hs2 & Ho & Hp).
  unfold c, clone, ModelParametersUnified_lines. rewrite construct_fields.
  split; [by split|]. split; [done|]. split; [done|]. split; [done|].
  split.
  - unfold getParameterVectorAll, getParameterVectorAll_run.
    cbn [centers_ widths_ slopes_ offsets_ slopes_as_angles_].
    by rewrite (valid_angles m Hv).
  - unfold getParameterVectorAllSize. cbn [all_values_vector_size_].
    rewrite (valid_size m Hv). unfold Ones. rewrite length_replicate.
    unfold n_basis in Hp. lia.
Qed.

End Constructors.

(** The running example built with all five groups, and built with
    offsets that are one short. *)
Lemma constructor_valid_iff_shapes_witness :
  valid (ModelParametersUnified_priors
           (mkMatrix 3 [[30; 40; 50]%R]) (mkMatrix 3 [[5; 5; 5]%R])
           (mkMatrix 3 [[1; 1; 1]%R]) [0; 0; 0]%R [2; 2; 2]%R false false true) /\
  ~ valid (ModelParametersUnified_priors
             (mkMatrix 3 [[30; 40; 50]%R]) (mkMatrix 3 [[5; 5; 5]%R])
             (mkMatrix 3 [[1; 1; 1]%R]) [0; 0]%R [2; 2; 2]%R false false true).
Proof.
  split.
  - apply (constructor_valid_iff_shapes
             (mkMatrix 3 [[30; 40; 50]%R]) (mkMatrix 3 [[5; 5; 5]%R])
             (mkMatrix 3 [[1; 1; 1]%R]) [0; 0; 0]%R [2; 2; 2]%R false false true);
      repeat constructor.
  - intros Hv.
    apply (constructor_valid_iff_shapes
             (mkMatrix 3 [[30; 40; 50]%R]) (mkMatrix 3 [[5; 5; 5]%R])
             (mkMatrix 3 [[1; 1; 1]%R]) [0; 0]%R [2; 2; 2]%R false false true)
      in Hv as (_ & _ & _ & _ & Ho & _); [discriminate Ho|repeat constructor..].
Defined.

(** The clone of the running example, queried at 40. *)
Lemma clone_behaves_like_original_witness :
  getLines (clone false lwr3) (mkMatrix 1 [[40%R]])
  = getLines lwr3 (mkMatrix 1 [[40%R]]).
Proof.
  apply (clone_behaves_like_original false lwr3 (mkMatrix 1 [[40%R]]) []).
  prove_valid.
Defined.

(** *** A model built from weights *)

Section Weights.
Context {D : Type} `{Arith D, Libm D, Atan2 D} `{!ZeroLaws D}.
Implicit Types m : ModelParametersUnified D.

Lemma sum_zeros (l : list D) : Forall (fun x => x = d0) l -> sum l = d0.
Proof.
  destruct 1 as [|x t -> Ht]; [done|]. cbn.
  induction Ht as [|y t -> _ IH]; [done|]. cbn. by rewrite dadd_0_l.
Qed.

Lemma dot_zeros_r (u : list D) k : dot u (replicate k d0) = d0.
Proof.
  unfold dot. apply sum_zeros. apply Forall_forall. intros x Hx.
  apply elem_of_lookup_zip_with in Hx as (i & a & b & -> & _ & Hb).
  apply lookup_replicate in Hb as [-> _]. apply dmul_0_r.
Qed.

Lemma dot_zeros_l (u : list D) k : dot (replicate k d0) u = d0.
Proof.
  unfold dot. apply sum_zeros. apply Forall_forall. intros x Hx.
  apply elem_of_lookup_zip_with in Hx as (i & a & b & -> & Ha & _).
  apply lookup_replicate in Ha as [-> _]. apply dmul_0_l.
Qed.

Lemma row_Zero r c b : b < r -> row b (Zero r c : MatrixXd D) = replicate c d0.
Proof.
  intros Hb. unfold row, Zero, filled. cbn [columns].
  rewrite fmap_replicate. f_equal.
  apply nth_lookup_Some. by apply lookup_replicate_2.
Qed.

(** The constructor that takes weights gives every line the slope zero
    and its weight for offset: given shapes that agree, the object is
    valid and [getLines] returns, for every input and in both line
    representations, the matrix whose column [b] holds the weight [b]
    in every row. Arithmetic is exact. *)
Theorem weights_model_has_constant_lines (centers widths : MatrixXd D)
    (weights : VectorXd D) (nbf pivot caching0 : bool) (inputs : MatrixXd D) :
  wf_matrix centers -> wf_matrix widths ->
  rows widths = rows centers -> cols widths = cols centers ->
  length weights = rows centers ->
  let m := ModelParametersUnified_weights centers widths weights nbf pivot caching0 in
  valid m /\
  getLines m inputs =
  matrix_of_entries (rows inputs) (rows centers) (fun b _ => nth b weights d0).
Proof.
  intros HC HW Hr Hc Hl m.
  assert (Hv : valid m) by (by apply weights_model_valid).
  split; [exact Hv|].
  rewrite (getLines_entries m inputs Hv).
  unfold matrix_of_entries. f_equal.
  change (n_basis m) with (rows centers).
  apply tabulate_ext. intros b Hb. apply tabulate_ext. intros s _.
  unfold line_value.
  change (slopes_ m) with (Zero (rows centers) (cols centers) : MatrixXd D).
  change (offsets_ m) with weights.
  change (lines_pivot_at_max_activation_ m) with pivot.
  rewrite row_Zero by done. rewrite dot_zeros_r, dadd_0_l.
  destruct pivot; [|done]. by rewrite dot_zeros_l, dsub_0_r.
Qed.

End Weights.

#[global] Instance R_ZeroLaws : ZeroLaws R.
Proof. split; intros x; cbn; lra. Qed.

(** Three Gaussians with the weights 7, 8 and 9, in the pivot form,
    at the inputs 40 and 45. *)
Lemma weights_model_has_constant_lines_witness :
  getLines (ModelParametersUnified_weights
              (mkMatrix 3 [[30; 40; 50]%R]) (mkMatrix 3 [[5; 5; 5]%R])
              [7; 8; 9]%R false true true)
           (mkMatrix 2 [[40; 45]%R])
  = mkMatrix 2 [[7; 7]; [8; 8]; [9; 9]]%R.
Proof.
  apply (weights_model_has_constant_lines
           (mkMatrix 3 [[30; 40; 50]%R]) (mkMatrix 3 [[5; 5; 5]%R])
           [7; 8; 9]%R false true true (mkMatrix 2 [[40; 45]%R]));
    (repeat constructor) || reflexivity.
Defined.

(** *** The grid that [saveGridData] builds *)

Section GridProperties.
Context {D : Type} `{Arith D, Libm D, Atan2 D}.

Lemma cell_unique (n ii jj ii' jj' : nat) :
  jj < n -> jj' < n -> ii * n + jj = ii' * n + jj' -> ii = ii' /\ jj = jj'.
Proof.
  intros Hj Hj' Heq.
  destruct (lt_eq_lt_dec ii ii') as [[Hlt|Heq']|Hgt].
  - assert (S ii * n <= ii' * n) by (apply Nat.mul_le_mono_r; lia). lia.
  - subst ii'. lia.
  - assert (S ii' * n <= ii * n) by (apply Nat.mul_le_mono_r; lia). lia.
Qed.

Lemma grid_filled_Zero (x1 x2 : VectorXd D) n_samples :
  grid_filled x1 x2 0 n_samples (Zero n_samples 2).
Proof.
  exists (replicate n_samples d0), (replicate n_samples d0).
  split; [done|]. rewrite !length_replicate. repeat split; lia.
Qed.

Lemma grid_filled_cell (x1 x2 : VectorXd D) k n_samples ii jj (inputs : MatrixXd D) :
  grid_filled x1 x2 k n_samples inputs ->
  k = ii * length x2 + jj -> jj < length x2 -> k < n_samples ->
  grid_filled x1 x2 (S k) n_samples (grid_cell x1 x2 ii jj inputs).
Proof.
  intros (c0 & c1 & -> & Hl0 & Hl1 & Hfill) Hk Hjj HkN.
  exists (<[k := nth ii x1 d0]> c0), (<[k := nth jj x2 d0]> c1).
  split; [by rewrite Hk|]. rewrite !length_insert.
  split; [done|]. split; [done|].
  intros ii' jj' Hjj' Hlt.
  destruct (decide (ii' * length x2 + jj' = k)) as [Heq|Hne].
  - rewrite Heq, !list_lookup_insert_eq by lia.
    rewrite Hk in Heq. by destruct (cell_unique _ _ _ _ _ Hjj' Hjj Heq) as [-> ->].
  - rewrite !list_lookup_insert_ne by lia. apply Hfill; [done|lia].
Qed.

Lemma grid_filled_row (x1 x2 : VectorXd D) n_samples ii l (inputs : MatrixXd D) :
  grid_filled x1 x2 (ii * length x2) n_samples inputs ->
  l <= length x2 -> ii * length x2 + l <= n_samples ->
  grid_filled x1 x2 (ii * length x2 + l) n_samples
    (fold_left (fun inputs jj => grid_cell x1 x2 ii jj inputs) (seq 0 l) inputs).
Proof.
  intros Hfill. induction l as [|l IH]; intros Hl HN.
  - cbn. by rewrite Nat.add_0_r.
  - rewrite seq_S, fold_left_app. cbn [fold_left Nat.add].
    rewrite Nat.add_succ_r. apply grid_filled_cell; [apply IH; lia|done|lia|lia].
Qed.

Lemma grid_filled_loops (x1 x2 : VectorXd D) n_samples k :
  k <= length x1 -> k * length x2 <= n_samples ->
  grid_filled x1 x2 (k * length x2) n_samples
    (fold_left (fun inputs ii =>
                  fold_left (fun inputs jj => grid_cell x1 x2 ii jj inputs)
                            (seq 0 (length x2)) inputs)
               (seq 0 k) (Zero n_samples 2)).
Proof.
  induction k as [|k IH]; intros Hk HN.
  - apply grid_filled_Zero.
  - rewrite seq_S, fold_left_app. cbn [fold_left Nat.add].
    replace (S k * length x2) with (k * length x2 + length x2) by lia.
    apply grid_filled_row; [apply IH; lia|done|lia].
Qed.

Section WithLinSpaced.
Variable LinSpaced : nat -> D -> D -> VectorXd D.
Hypothesis LinSpaced_size :
  forall size low high, length (LinSpaced size low high) = size.

(** The grid of [saveGridData] for two dimensions is the Cartesian
    product of the two linearly spaced vectors, the second index
    running fastest: the matrix has [n1 * n2] rows and two columns, and
    row [ii * n2 + jj] holds [x1[ii]] and [x2[jj]]. For one dimension
    the grid is the one column [x1]. [LinSpaced] is any function that
    returns a vector of the size it is given. *)
Theorem grid_is_cartesian_product (min max : VectorXd D) (n1 n2 : nat) :
  let x1 := LinSpaced n1 (nth 0 min d0) (nth 0 max d0) in
  let x2 := LinSpaced n2 (nth 1 min d0) (nth 1 max d0) in
  let inputs := grid_inputs LinSpaced min max [n1; n2] in
  (length min = 1 -> inputs = mkMatrix n1 [x1]) /\
  (length min = 2 ->
   rows inputs = n1 * n2 /\ cols inputs = 2 /\ wf_matrix inputs /\
   forall ii jj, ii < n1 -> jj < n2 ->
     coeff inputs (ii * n2 + jj) 0 = nth ii x1 d0 /\
     coeff inputs (ii * n2 + jj) 1 = nth jj x2 d0).
Proof.
  intros x1 x2 inputs. split.
  - intros Hd. unfold inputs, grid_inputs. rewrite Hd. cbn [Nat.eqb nth].
    by rewrite (LinSpaced_size n1).
  - intros Hd.
    assert (Hl1 : length x1 = n1) by apply LinSpaced_size.
    assert (Hl2 : length x2 = n2) by apply LinSpaced_size.
    assert (Hfill : grid_filled x1 x2 (n1 * n2) (n1 * n2) inputs).
    { unfold inputs, grid_inputs. rewrite Hd. cbn [Nat.eqb nth].
      fold x1 x2. unfold grid_loops.
      pose proof (grid_filled_loops x1 x2 (n1 * n2) (length x1)) as Hloops.
      rewrite Hl1, Hl2 in Hloops. rewrite Hl1, Hl2. apply Hloops; lia. }
    destruct Hfill as (c0 & c1 & -> & Hc0 & Hc1 & Hfill).
    split; [done|]. split; [done|]. split; [by repeat constructor|].
    intros ii jj Hii Hjj. rewrite Hl2 in Hfill.
    assert (Hlt : ii * n2 + jj < n1 * n2).
    { assert (S ii * n2 <= n1 * n2) by (apply Nat.mul_le_mono_r; lia). lia. }
    destruct (Hfill ii jj Hjj Hlt) as [H0' H1'].
    unfold coeff, col. cbn [columns nth].
    by rewrite (nth_lookup_Some _ _ _ _ H0'), (nth_lookup_Some _ _ _ _ H1').
Qed.

Lemma grid_inputs_shape (min max : VectorXd D) (n_samples_per_dim : list nat) :
  length min = 1 \/ length min = 2 ->
  wf_matrix (grid_inputs LinSpaced min max n_samples_per_dim) /\
  cols (grid_inputs LinSpaced min max n_samples_per_dim) = length min.
Proof.
  unfold grid_inputs. intros [Hd|Hd]; rewrite Hd; cbn [Nat.eqb].
  - split; [by repeat constructor|done].
  - set (x1 := LinSpaced (nth 0 n_samples_per_dim 0) (nth 0 min d0) (nth 0 max d0)).
    set (x2 := LinSpaced (nth 1 n_samples_per_dim 0) (nth 1 min d0) (nth 1 max d0)).
    pose proof (grid_filled_loops x1 x2
                  (nth 0 n_samples_per_dim 0 * nth 1 n_samples_per_dim 0)
                  (length x1)) as Hloops.
    destruct Hloops as (c0 & c1 & Heq & Hc0 & Hc1 & _); [done| |].
    { unfold x1, x2. by rewrite !LinSpaced_size. }
    unfold grid_loops. rewrite Heq. split; [by repeat constructor|done].
Qed.

Section GridExact.
Context `{!ExactEq D}.

(** The whole run of [locallyWeightedLines] on a valid model whose memo
    is empty or right. *)
Lemma locallyWeightedLines_whole_run (inputs : MatrixXd D)
    (m : ModelParametersUnified D) :
  valid m -> cache_ok m -> wf_matrix inputs ->
  exists m',
    locallyWeightedLines inputs m =
    (Returned (mkMatrix (rows inputs)
                 [(fun s => weighted_sum m inputs s) <$> seq 0 (rows inputs)]),
     m', []) /\
    (m' = m \/ exists K, m' = set_cache inputs K m).
Proof.
  intros Hv Hok Hwf.
  destruct (decide (rows inputs = 0)) as [Hr0|Hr0].
  - destruct (kernelActivations_returns inputs m) as (K & m' & HK & Hm').
    exists m'. rewrite (locallyWeightedLines_run inputs m K m' HK).
    rewrite getLines_entries by done. unfold rowwise_sum.
    cbn [cwise2 matrix_of_entries rows]. rewrite Hr0.
    split; [done|]. destruct Hm' as [->| ->]; [by left|right; by exists K].
  - destruct (query_is_direct inputs m Hok Hwf (or_introl Hr0))
      as (m' & HK & _ & Hm').
    exists m'. rewrite (locallyWeightedLines_run inputs m _ m' HK).
    rewrite weighted_lines_entries by done.
    rewrite getLines_entries by done.
    split; [done|]. destruct Hm' as [->| ->]; [by left|right; by eexists].
Qed.


End GridExact.

End WithLinSpaced.

End GridProperties.

Lemma LinSpaced_exact_size (size : nat) (low high : R) :
  length (LinSpaced_exact size low high) = size.
Proof.
  unfold LinSpaced_exact. destruct (Nat.eqb_spec size 1) as [->|_]; [done|].
  by rewrite length_fmap, length_seq.
Qed.

(** The grid of 3 by 2 points over [0, 1] x [10, 20]: its fourth row
    is the second point of the first axis with the second point of the
    second. *)
Lemma grid_is_cartesian_product_witness :
  let inputs := grid_inputs LinSpaced_exact [0; 10]%R [1; 20]%R [3; 2] in
  rows inputs = 6 /\
  coeff inputs 3 0 = nth 1 (LinSpaced_exact 3 0 1) 0%R /\
  coeff inputs 3 1 = nth 1 (LinSpaced_exact 2 10 20) 0%R.
Proof.
  destruct (grid_is_cartesian_product LinSpaced_exact LinSpaced_exact_size
              [0; 10]%R [1; 20]%R 3 2) as [_ Hgrid].
  destruct (Hgrid eq_refl) as (Hrows & _ & _ & Hcell).
  split; [exact Hrows|]. apply (Hcell 1 1); lia.
Defined.


(** *** Coefficients that differ from themselves *)

Section NotSelfEqual.
Context {D : Type} `{Arith D, Libm D, Atan2 D}.
Implicit Types m : ModelParametersUnified D.

Lemma array_eq_all_not_self (c : list D) i x :
  c !! i = Some x -> deqb x x = false -> array_eq_all c c = false.
Proof.
  intros Hi Hx. unfold array_eq_all. revert i Hi.
  induction c as [|y c IH]; intros [|i] Hi; try done;
    cbn [zip zip_with forallb fst snd].
  - injection Hi as ->. by rewrite Hx.
  - rewrite (IH i Hi). apply andb_false_r.
Qed.

Lemma filter_not_nil {A} (p : A -> bool) (l : list A) x :
  In x l -> p x = true -> List.filter p l <> [].
Proof.
  induction l as [|y l IH]; [done|]. cbn. intros [->|Hx] Hp.
  - by rewrite Hp.
  - destruct (p y); [done|by apply IH].
Qed.

(** A coefficient that differs from itself (in binary64, a NaN) among
    the centers defeats the comparison that spares the memo: every
    write of a vector holding it where a center goes calls [clearCache]
    and leaves the memo empty, even when the very same vector was
    written just before and the centers do not change. *)
Theorem write_of_nan_center_clears_memo (values : VectorXd D) m i j x :
  valid m -> length values = getParameterVectorAllSize m ->
  i < n_basis m -> j < n_dims m ->
  values !! (j * n_basis m + i) = Some x -> deqb x x = false ->
  let m' := state_of (setParameterVectorAll values m) in
  let again := setParameterVectorAll values m' in
  ClearCache ∈ trace_of again /\
  memo_empty (state_of again) /\
  centers_ (state_of again) = centers_ m'.
Proof.
  intros Hv Hlen Hi Hj Hx Hnan m' again.
  assert (Hm' : m' = after_setParameterVectorAll values m).
  { unfold m'. by rewrite state_after_right_size. }
  pose proof (valid_after_setParameterVectorAll values m Hv Hlen) as Hv'.
  rewrite <- Hm' in Hv'.
  destruct (after_setParameterVectorAll_dims values m) as [Hn Hd].
  rewrite <- Hm' in Hn, Hd.
  assert (Hlen' : length values = getParameterVectorAllSize m')
    by (by rewrite Hm').
  unfold again. rewrite (state_after_right_size values m' Hv' Hlen').
  cbn [trace_of state_of fst snd].
  assert (Hcol : col j (centers_ m')
                 = segment (0 + j * n_basis m) (n_basis m) values).
  { rewrite Hm'. unfold col, after_setParameterVectorAll, new_columns.
    cbn [centers_ columns]. apply nth_lookup_Some.
    rewrite lookup_tabulate. by rewrite decide_True. }
  assert (Hchanged : cache_clearing_columns values m' <> []).
  { unfold cache_clearing_columns, changed_columns.
    fold (n_basis m') (n_dims m'). rewrite Hn, Hd.
    intros Hnil. apply app_eq_nil in Hnil as [Hnil _]. revert Hnil.
    apply (filter_not_nil _ _ j); [apply in_seq; lia|].
    cbn [andb]. rewrite Hcol.
    rewrite (array_eq_all_not_self _ i x); [done| |done].
    rewrite lookup_segment by done. rewrite <- Hx. f_equal. }
  split; [|split].
  - destruct (cache_clearing_columns values m') as [|a l]; [done|].
    cbn. apply list_elem_of_here.
  - unfold after_setParameterVectorAll.
    destruct (cache_clearing_columns values m') as [|a l]; [done|]. by split.
  - unfold after_setParameterVectorAll at 1. cbn [centers_].
    fold (n_basis m') (n_dims m'). rewrite Hn, Hd.
    rewrite Hm'. reflexivity.
Qed.

End NotSelfEqual.

(** A NaN written as the first center of two Gaussians in binary64,
    twice. *)
Lemma write_of_nan_center_clears_memo_witness :
  let values := [nan; 1; 1; 1; 0; 0; 0; 0; 0; 0]%float in
  let m' := state_of (setParameterVectorAll values near_model) in
  ClearCache ∈ trace_of (setParameterVectorAll values m').
Proof.
  apply (write_of_nan_center_clears_memo
           [nan; 1; 1; 1; 0; 0; 0; 0; 0; 0]%float near_model 0 0 nan);
    [prove_valid|reflexivity|vm_compute; lia|vm_compute; lia
    |reflexivity|reflexivity].
Defined.
